(** * migrate-logger.py: console-to-logger migration script

    A shallow embedding of [src/migrate-logger.py] and the properties of its
    specification.

    Conventions of the model.
    - A Python [str] is a Rocq [string]: the sequence of bytes of its UTF-8
      encoding.  Every pattern the script searches for is ASCII, and UTF-8 is
      self-synchronising, so [in], [split], [replace], [re.sub] and
      [startswith] on the bytes agree with Python on the code points;
      [strip] removes the UTF-8 encodings of the code points Python calls
      whitespace.
    - The file system is a finite map from path strings to the contents of
      regular files whose bytes decode in the preferred encoding.  A file is
      opened in text mode: [read] returns the content with every CR LF and
      every other CR translated to LF (universal newlines), and [write]
      stores the text as it is, [os.linesep] being LF (POSIX).  A path that
      is a directory and a file that does not decode, where [open] or [read]
      raise and the script stops, are not in the model: no statement below
      speaks of a run over such a path.
    - A path is its string; [base_dir / filepath] is taken for the relative
      paths of the manifest, which have no leading [/] or [./].
    - [print] and [write] are recorded, in program order, in a trace. *)

From Stdlib Require Import ZArith Lia Ascii.
From stdpp Require Import base strings list gmap pretty.

(** ** Python string primitives *)

(** [s.startswith(p)] *)
Fixpoint startswith (s p : string) {struct p} : bool :=
  match p with
  | EmptyString => true
  | String a p' =>
      match s with
      | EmptyString => false
      | String b s' => if Ascii.eqb a b then startswith s' p' else false
      end
  end.

(** [sub in s] *)
Fixpoint contains (sub s : string) : bool :=
  startswith s sub ||
  match s with
  | EmptyString => false
  | String _ s' => contains sub s'
  end.

(** Number of positions of [s] at which [sub] occurs. *)
Fixpoint occurrences (sub s : string) : nat :=
  (if startswith s sub then 1 else 0) +
  match s with
  | EmptyString => 0
  | String _ s' => occurrences sub s'
  end.

(** Replacement of the leftmost non-overlapping occurrences of a non-empty
    literal [pat] by [rep], scanning left to right: after a match the scan
    resumes behind the matched text ([skip] counts the characters of the match
    still to pass over). *)
Fixpoint subst_from (pat rep : string) (skip : nat) (s : string) : string :=
  match s with
  | EmptyString => EmptyString
  | String c s' =>
      match skip with
      | S k => subst_from pat rep k s'
      | O =>
          if startswith s pat
          then rep +:+ subst_from pat rep (String.length pat - 1) s'
          else String c (subst_from pat rep 0 s')
      end
  end.

(** [re.sub(pat, rep, s)] for a pattern that is an escaped literal. *)
Definition re_sub (pat rep s : string) : string := subst_from pat rep 0 s.

(** [s.replace(pat, rep)] *)
Definition str_replace (pat rep s : string) : string := subst_from pat rep 0 s.

(** [s.split(sep)] for a one-character separator. *)
Fixpoint split (sep : ascii) (s : string) : list string :=
  match s with
  | EmptyString => [EmptyString]
  | String c s' =>
      if Ascii.eqb c sep then EmptyString :: split sep s'
      else match split sep s' with
           | h :: t => String c h :: t
           | [] => [String c EmptyString]
           end
  end.

(** [sep.join(l)] *)
Fixpoint join (sep : string) (l : list string) : string :=
  match l with
  | [] => EmptyString
  | [x] => x
  | x :: rest => x +:+ sep +:+ join sep rest
  end.

Definition newline : string := String (ascii_of_nat 10) EmptyString.

Fixpoint rev_string (acc s : string) : string :=
  match s with
  | EmptyString => acc
  | String c s' => rev_string (String c acc) s'
  end.

Definition bytes (l : list nat) : string :=
  fold_right (fun n s => String (ascii_of_nat n) s) EmptyString l.

(** The code points for which [str.isspace] holds, UTF-8 encoded:
    U+0009..U+000D, U+001C..U+0020, U+0085, U+00A0, U+1680, U+2000..U+200A,
    U+2028, U+2029, U+202F, U+205F, U+3000. *)
Definition whitespace : list string :=
  map bytes
    [ [9]; [10]; [11]; [12]; [13]; [28]; [29]; [30]; [31]; [32];
      [194; 133]; [194; 160]; [225; 154; 128];
      [226; 128; 128]; [226; 128; 129]; [226; 128; 130]; [226; 128; 131];
      [226; 128; 132]; [226; 128; 133]; [226; 128; 134]; [226; 128; 135];
      [226; 128; 136]; [226; 128; 137]; [226; 128; 138];
      [226; 128; 168]; [226; 128; 169]; [226; 128; 175];
      [226; 129; 159]; [227; 128; 128] ].

(** Length of the member of [chars] that [s] starts with, 0 when there is
    none. *)
Definition leading (chars : list string) (s : string) : nat :=
  match List.find (startswith s) chars with
  | Some w => String.length w
  | None => 0
  end.

Fixpoint lstrip_from (chars : list string) (skip : nat) (s : string) : string :=
  match s with
  | EmptyString => EmptyString
  | String _ s' =>
      match skip with
      | S k => lstrip_from chars k s'
      | O =>
          match leading chars s with
          | O => s
          | S k => lstrip_from chars k s'
          end
      end
  end.

Definition lstrip (s : string) : string := lstrip_from whitespace 0 s.

Definition rstrip (s : string) : string :=
  rev_string EmptyString
    (lstrip_from (map (rev_string EmptyString) whitespace) 0
       (rev_string EmptyString s)).

(** [s.strip()] *)
Definition strip (s : string) : string := rstrip (lstrip s).

(** [s.rfind(c)] for a one-character [c]: the last index, or -1. *)
Fixpoint rfind_from (c : ascii) (s : string) (i last : Z) : Z :=
  match s with
  | EmptyString => last
  | String b s' => rfind_from c s' (i + 1) (if Ascii.eqb b c then i else last)
  end.

Definition rfind (c : ascii) (s : string) : Z := rfind_from c s 0 (-1).

(** ** [pathlib]: the stem of a POSIX path *)

(** The components of a path: empty components and [.] are dropped. *)
Definition path_parts (p : string) : list string :=
  List.filter (fun c => negb (String.eqb c "") && negb (String.eqb c "."))
    (split "/" p).

(** [Path(p).name] *)
Definition path_name (p : string) : string := default "" (last (path_parts p)).

(** [Path(p).stem]: the name without its last suffix; a leading or a trailing
    dot does not start a suffix. *)
Definition stem (p : string) : string :=
  let name := path_name p in
  let i := rfind "." name in
  if ((0 <? i) && (i <? Z.of_nat (String.length name) - 1))%Z
  then String.substring 0 (Z.to_nat i) name
  else name.

(** ** [get_scope] *)

(** The longest prefix of [s] without a slash, and what follows it. *)
Fixpoint span_component (s : string) : string * string :=
  match s with
  | EmptyString => (EmptyString, EmptyString)
  | String c s' =>
      if Ascii.eqb c "/" then (EmptyString, s)
      else let '(a, b) := span_component s' in (String c a, b)
  end.

Fixpoint drop_string (n : nat) (s : string) : string :=
  match n, s with
  | S k, String _ s' => drop_string k s'
  | _, _ => s
  end.

Definition api_root : string := "src/app/api/".

(** Group 1 of [src/app/api/([^/]+(?:/[^/]+)?)] matched at the start of [s]:
    both repetitions are greedy and nothing follows the group, so no
    backtracking takes place. *)
Definition api_match_at (s : string) : option string :=
  if startswith s api_root then
    let '(c1, rest) := span_component (drop_string (String.length api_root) s) in
    match c1 with
    | EmptyString => None
    | _ =>
        match rest with
        | String _ rest' =>
            let '(c2, _) := span_component rest' in
            match c2 with
            | EmptyString => Some c1
            | _ => Some (c1 +:+ "/" +:+ c2)
            end
        | EmptyString => Some c1
        end
    end
  else None.

(** [re.search(r'src/app/api/([^/]+(?:/[^/]+)?)', s)]: the match at the
    leftmost position that has one. *)
Fixpoint re_search_api (s : string) : option string :=
  match api_match_at s with
  | Some g => Some g
  | None =>
      match s with
      | EmptyString => None
      | String _ s' => re_search_api s'
      end
  end.

Definition get_scope (filepath : string) : option string :=
  if contains "api/" filepath then
    match re_search_api filepath with
    | Some g => Some ("api:" +:+ str_replace "/" ":" g)
    | None => Some "api:unknown"
    end
  else if contains "services/" filepath && contains "ValidationService" filepath then
    Some ("validation:" +:+ stem filepath)
  else if contains "services/" filepath then
    Some ("service:" +:+ stem filepath)
  else if contains "domain/entities/" filepath then
    Some ("domain:entity:" +:+ stem filepath)
  else if contains "domain/value-objects/" filepath then
    Some ("domain:vo:" +:+ stem filepath)
  else if contains "repositories/" filepath then
    Some ("repository:" +:+ stem filepath)
  else if contains "config/" filepath then
    Some ("config:" +:+ stem filepath)
  else None.

(** ** The world the script runs in *)

Inductive event : Type :=
| EvPrint (line : string)
| EvWrite (path content : string).

Record World : Type := mkWorld {
  files : gmap string string;
  trace : list event
}.

(** A computation returns [None] when it raises. *)
Definition IO (A : Type) : Type := World → option (A * World).

Global Instance IO_ret : MRet IO := λ A x w, Some (x, w).
Global Instance IO_bind : MBind IO := λ A B f m w,
  match m w with
  | Some (a, w') => f a w'
  | None => None
  end.

(** [print(line)] *)
Definition print (line : string) : IO unit := λ w,
  Some (tt, mkWorld (files w) (trace w ++ [EvPrint line])).

(** [p.exists()] *)
Definition path_exists (p : string) : IO bool := λ w,
  Some (bool_decide (is_Some (files w !! p)), w).

Definition cr : ascii := ascii_of_nat 13.

(** What text mode makes of the content it reads: CR LF and a CR alone
    become LF. *)
Fixpoint universal_newlines (s : string) : string :=
  match s with
  | EmptyString => EmptyString
  | String c s' =>
      if Ascii.eqb c cr then
        String (ascii_of_nat 10)
          match s' with
          | String d s'' =>
              if Ascii.eqb d (ascii_of_nat 10) then universal_newlines s''
              else universal_newlines s'
          | EmptyString => EmptyString
          end
      else String c (universal_newlines s')
  end.

(** [open(p, 'r').read()] of a regular file that decodes: the content after
    the newline translation of text mode; raises when there is no such
    file. *)
Definition read_file (p : string) : IO string := λ w,
  match files w !! p with
  | Some content => Some (universal_newlines content, w)
  | None => None
  end.

(** [open(p, 'w').write(content)] *)
Definition write_file (p content : string) : IO unit := λ w,
  Some (tt, mkWorld (<[p := content]> (files w)) (trace w ++ [EvWrite p content])).

(** [str(base_dir / filepath)] for a relative [filepath] without a leading
    [./], as every entry of the manifest is. *)
Definition path_join (base_dir filepath : string) : string :=
  base_dir +:+ "/" +:+ filepath.

(** ** [migrate_file] *)

Definition dquote : string := String (ascii_of_nat 34) EmptyString.

(** [re.search(r'console\.(log|error|warn|info|debug)', content)] *)
Definition has_console (content : string) : bool :=
  existsb (λ level, contains ("console." +:+ level) content)
    ["log"; "error"; "warn"; "info"; "debug"].

(** Lines 143-149: the snippet; an empty scope is as false as [None]. *)
Definition import_statement (scope : option string) : string :=
  match scope with
  | Some (String c sc) =>
      "import { createScopedLogger } from '@/lib/logger'" +:+ newline +:+ newline +:+
      "const logger = createScopedLogger('" +:+ String c sc +:+ "')" +:+ newline
  | _ => "import { logger } from '@/lib/logger'" +:+ newline
  end.

Definition is_import_line (line : string) : bool :=
  startswith (strip line) "import " && negb (contains "type" line).

(** Lines 153-156: the loop over [enumerate(lines)]. *)
Fixpoint last_import_from (lines : list string) (i last_import_idx : Z) : Z :=
  match lines with
  | [] => last_import_idx
  | line :: rest =>
      last_import_from rest (i + 1) (if is_import_line line then i else last_import_idx)
  end.

(** [l.insert(i, x)] for [0 <= i]. *)
Definition list_insert_at {A} (i : nat) (x : A) (l : list A) : list A :=
  take i l ++ x :: drop i l.

(** Lines 143-164: the content with the snippet injected. *)
Definition add_import (filepath content : string) : string :=
  let snippet := import_statement (get_scope filepath) in
  let lines := split (ascii_of_nat 10) content in
  let last_import_idx := last_import_from lines 0 (-1) in
  if (0 <=? last_import_idx)%Z
  then join newline (list_insert_at (Z.to_nat (last_import_idx + 1)) snippet lines)
  else snippet +:+ newline +:+ content.

(** Lines 167-171: the five substitutions, in this order. *)
Definition replace_console (content : string) : string :=
  let content := re_sub "console.log(" "logger.info(" content in
  let content := re_sub "console.error(" "logger.error(" content in
  let content := re_sub "console.warn(" "logger.warn(" content in
  let content := re_sub "console.info(" "logger.info(" content in
  re_sub "console.debug(" "logger.debug(" content.

Definition already_migrated (content : string) : bool :=
  contains "'@/lib/logger'" content ||
  contains (dquote +:+ "@/lib/logger" +:+ dquote) content.

Definition migrate_file (filepath base_dir : string) : IO bool :=
  let full_path := path_join base_dir filepath in
  found ← path_exists full_path;
  if negb found then
    print ("⚠️  File not found: " +:+ filepath);; mret false
  else
    content ← read_file full_path;
    if already_migrated content then
      print ("⊙ Already migrated: " +:+ filepath);; mret false
    else if negb (has_console content) then
      print ("⊙ No console statements: " +:+ filepath);; mret false
    else
      print ("→ Migrating: " +:+ filepath);;
      write_file (full_path +:+ ".bak") content;;
      write_file full_path (replace_console (add_import filepath content));;
      print ("✓ Migrated: " +:+ filepath);;
      mret true.

(** ** [main] *)

Definition FILES_TO_MIGRATE : list string :=
  [ "src/app/api/account-balances/route.ts";
    "src/app/api/history/route.ts";
    "src/app/api/get-latest-rate/route.ts";
    "src/app/api/rate-history/route.ts";
    "src/app/api/publish-rate/route.ts";
    "src/app/api/portfolio/update-prices/route.ts";
    "src/app/api/withdraw/route.ts";
    "src/app/api/deposit/route.ts";
    "src/services/portfolioPriceService.ts";
    "src/services/portfolioAuthService.ts";
    "src/services/portfolioWalletService.ts";
    "src/services/token.services.ts";
    "src/services/hederaService.ts";
    "src/services/telegramService.ts";
    "src/services/hederaRateService.ts";
    "src/services/withdrawService.ts";
    "src/services/saucerSwapService.ts";
    "src/services/defiService.ts";
    "src/features/withdrawals/services/WithdrawValidationService.ts";
    "src/features/deposits/services/DepositValidationService.ts";
    "src/features/rates/services/RateValidationService.ts";
    "src/domain/entities/Withdrawal.ts";
    "src/domain/entities/Deposit.ts";
    "src/domain/value-objects/AccountId.ts";
    "src/domain/value-objects/Rate.ts";
    "src/domain/value-objects/Money.ts";
    "src/core/repositories/IRateRepository.ts";
    "src/core/repositories/IWithdrawRepository.ts";
    "src/core/repositories/IDepositRepository.ts";
    "src/hooks/useSyncCooldown.ts";
    "src/hooks/useWalletOrder.ts";
    "src/hooks/useWalletCollapse.ts";
    "src/hooks/useHederaAuth.ts";
    "src/hooks/usePortfolioWallets.ts";
    "src/hooks/useRealTimeRate.ts";
    "src/hooks/useTVL.ts";
    "src/hooks/useTokenPriceRealtime.ts";
    "src/hooks/usePortfolioAuth.ts";
    "src/hooks/useWithdrawals.ts";
    "src/hooks/useProcessModal.ts";
    "src/hooks/useWithdrawSubmit.ts";
    "src/hooks/useHistory.ts";
    "src/hooks/useInstantWithdraw.ts";
    "src/components/aggregated-portfolio-view.tsx";
    "src/components/base-wallet-button.tsx";
    "src/components/account-dialog.tsx";
    "src/components/withdraw-dialog.tsx";
    "src/components/process-modal.tsx";
    "src/components/add-wallet-dialog.tsx";
    "src/app/(protocol)/earn/components/mint-action-button.tsx";
    "src/app/(protocol)/earn/components/trading-interface.tsx";
    "src/app/(protocol)/earn/components/redeem-action-button.tsx";
    "src/app/(protocol)/hcf-vault/components/hcf-trading-interface.tsx";
    "src/app/(protocol)/earn/hooks/useAccountID.tsx";
    "src/app/(protocol)/earn/hooks/useTokenBalances.tsx";
    "src/app/(protocol)/portfolio/page.tsx";
    "src/config/serverEnv.ts";
    "src/app/providers/wallet-provider.tsx" ].

Record counters : Type := mkCounters {
  total : nat;
  migrated : nat;
  skipped : nat
}.

(** Lines 192-197: the loop over the manifest. *)
Fixpoint main_loop (manifest : list string) (base_dir : string) (c : counters)
  : IO counters :=
  match manifest with
  | [] => mret c
  | filepath :: rest =>
      ok ← migrate_file filepath base_dir;
      main_loop rest base_dir
        (if ok : bool
         then mkCounters (total c + 1) (migrated c + 1) (skipped c)
         else mkCounters (total c + 1) (migrated c) (skipped c + 1))
  end.

Definition rule : string := Eval cbv in String.concat "" (replicate 50 "=").

(** [base_dir] is [Path(__file__).parent]. *)
Definition main (base_dir : string) : IO counters :=
  print rule;;
  print "Console-to-Logger Migration Script (Python)";;
  print rule;;
  print "";;
  c ← main_loop FILES_TO_MIGRATE base_dir (mkCounters 0 0 0);
  print "";;
  print rule;;
  print "Migration Summary";;
  print rule;;
  print ("Total files: " +:+ pretty (total c));;
  print ("✓ Migrated: " +:+ pretty (migrated c));;
  print ("⊙ Skipped: " +:+ pretty (skipped c));;
  print "";;
  (if (0 <? migrated c)%nat then
     print "⚠️  Review migrated files before committing!";;
     print "Backup files (.bak) created for all modified files.";;
     print "";;
     print "To remove backups after review:";;
     print "  find src -name '*.bak' -delete"
   else mret tt);;
  mret c.

(** ** Vocabulary of the properties *)

(** The world after one more printed line. *)
Definition say (line : string) (w : World) : World :=
  mkWorld (files w) (trace w ++ [EvPrint line]).

Definition no_counters : counters := mkCounters 0 0 0.

(** The world in which [main] enters its loop. *)
Definition banner (w : World) : World :=
  say "" (say rule (say "Console-to-Logger Migration Script (Python)" (say rule w))).

(** The world in which [main], started in [w], tries entry number [i] of the
    manifest. *)
Definition turn (base_dir : string) (w : World) (i : nat) : option World :=
  snd <$> main_loop (take i FILES_TO_MIGRATE) base_dir no_counters (banner w).

(** [migrate_file] has nothing to do for [filepath]. *)
Definition settled (base_dir : string) (fs : gmap string string) (filepath : string)
  : Prop :=
  match fs !! path_join base_dir filepath with
  | Some content => already_migrated content = true ∨ has_console content = false
  | None => True
  end.

(** The file of [filepath] refers to the logger module. *)
Definition logged (base_dir : string) (fs : gmap string string) (filepath : string)
  : Prop :=
  ∃ content, fs !! path_join base_dir filepath = Some content ∧
             already_migrated content = true.

Definition levels : list string := ["log"; "error"; "warn"; "info"; "debug"].

(** Follows the specification (step 3, applicability): some call of the form
    [console.<level>(] occurs in the content. *)
Definition has_console_call (content : string) : bool :=
  existsb (λ level, negb (occurrences ("console." +:+ level +:+ "(") content =? 0))
    levels.

(** Follows the specification (step 6): an import statement that is not a
    type-only import, that is a line whose trimmed form begins with the import
    keyword and not with [import type]. *)
Definition qualifying_import (line : string) : bool :=
  startswith (strip line) "import " && negb (startswith (strip line) "import type ").

Definition no_import_line (lines : list string) : bool :=
  forallb (λ line, negb (is_import_line line)) lines.

Definition nl : ascii := ascii_of_nat 10.

Fixpoint all_chars (f : ascii → bool) (s : string) : bool :=
  match s with
  | EmptyString => true
  | String c s' => f c && all_chars f s'
  end.

Definition srev (s : string) : string := rev_string "" s.

(** [t.endswith(q)] *)
Fixpoint endswith (t q : string) : bool :=
  String.eqb t q ||
  match t with
  | EmptyString => false
  | String _ t' => endswith t' q
  end.

(** [t] with its ending [old], when it has it, replaced by [new]. *)
Fixpoint swap_suffix (old new t : string) : string :=
  if String.eqb t old then new
  else match t with
       | EmptyString => EmptyString
       | String x t' => String x (swap_suffix old new t')
       end.

(** What the five substitutions make of the text in front of an opening
    parenthesis. *)
Definition rewrite_call (t : string) : string :=
  swap_suffix "console.debug" "logger.debug"
    (swap_suffix "console.info" "logger.info"
       (swap_suffix "console.warn" "logger.warn"
          (swap_suffix "console.error" "logger.error"
             (swap_suffix "console.log" "logger.info" t)))).

Definition bit (b : bool) : nat := if b then 1 else 0.

(** The snippet injected for [filepath] holds none of the calls the
    substitutions read or write. *)
Definition plain_snippet (filepath : string) : bool :=
  forallb
    (λ pat, occurrences pat (import_statement (get_scope filepath)) =? 0)
    [ "console.log("; "console.error("; "console.warn("; "console.info(";
      "console.debug("; "logger.info("; "logger.error("; "logger.warn(";
      "logger.debug(" ].

(** The characters of the five patterns, and a character foreign to them. *)
Definition alphabet : string := "console.logerrorwarninfodebug(".

Definition foreign (c : ascii) : bool := negb (contains (String c "") alphabet).

(** A path component: not empty, no slash. *)
Definition component (c : string) : bool :=
  negb (String.eqb c "") && negb (contains "/" c).

(** One iteration's update of the counters. *)
Definition count_one (ok : bool) (c : counters) : counters :=
  if ok
  then mkCounters (total c + 1) (migrated c + 1) (skipped c)
  else mkCounters (total c + 1) (migrated c) (skipped c + 1).

(** The values [migrate_file] returns when the loop calls it on the entries
    of [manifest] in turn, from the world [w]. *)
Fixpoint returns (manifest : list string) (base_dir : string) (w : World)
  : list bool :=
  match manifest with
  | [] => []
  | filepath :: rest =>
      match migrate_file filepath base_dir w with
      | Some (ok, w') => ok :: returns rest base_dir w'
      | None => []
      end
  end.

(** The number of printed lines of a trace that begin with [prefix]. *)
Fixpoint reported (prefix : string) (t : list event) : nat :=
  match t with
  | [] => 0
  | EvPrint line :: t' => bit (startswith line prefix) + reported prefix t'
  | EvWrite _ _ :: t' => reported prefix t'
  end.

(** What [main] prints of the counters once the loop is over. *)
Definition summary (c : counters) : list event :=
  [EvPrint ""; EvPrint rule; EvPrint "Migration Summary"; EvPrint rule;
   EvPrint ("Total files: " +:+ pretty (total c));
   EvPrint ("✓ Migrated: " +:+ pretty (migrated c));
   EvPrint ("⊙ Skipped: " +:+ pretty (skipped c));
   EvPrint ""].

(** How one call is counted before and after the substitutions. *)
Record call_counts (t t' : string) : Prop := {
  no_log : endswith t' "console.log" = false;
  no_error : endswith t' "console.error" = false;
  no_warn : endswith t' "console.warn" = false;
  no_info : endswith t' "console.info" = false;
  no_debug : endswith t' "console.debug" = false;
  to_info : bit (endswith t' "logger.info") =
            bit (endswith t "logger.info") + bit (endswith t "console.log") +
            bit (endswith t "console.info");
  to_error : bit (endswith t' "logger.error") =
             bit (endswith t "logger.error") + bit (endswith t "console.error");
  to_warn : bit (endswith t' "logger.warn") =
            bit (endswith t "logger.warn") + bit (endswith t "console.warn");
  to_debug : bit (endswith t' "logger.debug") =
             bit (endswith t "logger.debug") + bit (endswith t "console.debug")
}.

(** How a text is counted before and after the substitutions. *)
Record text_counts (s s' : string) : Prop := {
  gone_log : occurrences "console.log(" s' = 0;
  gone_error : occurrences "console.error(" s' = 0;
  gone_warn : occurrences "console.warn(" s' = 0;
  gone_info : occurrences "console.info(" s' = 0;
  gone_debug : occurrences "console.debug(" s' = 0;
  total_info : occurrences "logger.info(" s' =
               occurrences "logger.info(" s + occurrences "console.log(" s +
               occurrences "console.info(" s;
  total_error : occurrences "logger.error(" s' =
                occurrences "logger.error(" s + occurrences "console.error(" s;
  total_warn : occurrences "logger.warn(" s' =
               occurrences "logger.warn(" s + occurrences "console.warn(" s;
  total_debug : occurrences "logger.debug(" s' =
                occurrences "logger.debug(" s + occurrences "console.debug(" s
}.

(** [migrate_file] goes on to rewrite a file of this content. *)
Definition migratable (content : string) : bool :=
  negb (already_migrated content) && has_console content.

(** What a run makes of the file of a manifest entry, and of its backup:
    the rewritten file and the backup come from the text read, that is the
    content after the newline translation. *)
Definition migrated_form (filepath : string) (old : option string) : option string :=
  match old with
  | Some content =>
      Some (if migratable content
            then replace_console (add_import filepath (universal_newlines content))
            else content)
  | None => None
  end.

Definition backup_form (old bak : option string) : option string :=
  match old with
  | Some content =>
      if migratable content then Some (universal_newlines content) else bak
  | None => bak
  end.

(** The number of files written in a trace. *)
Fixpoint writes (t : list event) : nat :=
  match t with
  | [] => 0
  | EvWrite _ _ :: t' => S (writes t')
  | EvPrint _ :: t' => writes t'
  end.

(** The prefixes of the labels that end in the stem of the file name. *)
Definition scope_kinds : list string :=
  ["validation:"; "service:"; "domain:entity:"; "domain:vo:"; "repository:";
   "config:"].

(** * Properties *)

#[local] Arguments Ascii.eqb : simpl never.

(** ** Strings *)

Lemma str_app_nil_l (s : string) : "" +:+ s = s.
Proof. reflexivity. Qed.

Lemma str_app_cons (c : ascii) (s t : string) : String c s +:+ t = String c (s +:+ t).
Proof. reflexivity. Qed.

Lemma str_app_nil_r (s : string) : s +:+ "" = s.
Proof. induction s as [|c s IH]; [done | by rewrite str_app_cons, IH]. Qed.

Lemma str_app_assoc (a b c : string) : (a +:+ b) +:+ c = a +:+ b +:+ c.
Proof. induction a as [|x a IH]; [done | by rewrite !str_app_cons, IH]. Qed.

Lemma str_length_app (a b : string) :
  String.length (a +:+ b) = String.length a + String.length b.
Proof. induction a as [|x a IH]; [done | rewrite str_app_cons; simpl; by rewrite IH]. Qed.

Lemma startswith_app (p t : string) : startswith (p +:+ t) p = true.
Proof.
  induction p as [|c p IH]; [done |].
  rewrite str_app_cons. simpl. by rewrite Ascii.eqb_refl.
Qed.

Lemma startswith_inv (s p : string) :
  startswith s p = true → ∃ t, s = p +:+ t.
Proof.
  revert s. induction p as [|c p IH]; intros s H; simpl in *.
  - by exists s.
  - destruct s as [|b s]; [done |].
    destruct (Ascii.eqb_spec c b) as [-> | _]; [| done].
    destruct (IH _ H) as [t ->]. by exists t.
Qed.

Lemma app_neq_self (s t : string) : t ≠ "" → s +:+ t ≠ s.
Proof.
  intros Ht Heq. apply (f_equal String.length) in Heq.
  rewrite str_length_app in Heq. destruct t; [done | simpl in Heq; lia].
Qed.

Lemma startswith_length (s p : string) :
  startswith s p = true → String.length p ≤ String.length s.
Proof.
  revert s. induction p as [|a p IH]; intros s H; [simpl; lia |].
  destruct s as [|b s]; simpl in *; [done |].
  destruct (Ascii.eqb a b); [| done]. apply IH in H. lia.
Qed.

Lemma startswith_app_l (x y p : string) :
  startswith x p = true → startswith (x +:+ y) p = true.
Proof. intros [t ->]%startswith_inv. rewrite str_app_assoc. apply startswith_app. Qed.

Lemma startswith_app_long (x y p : string) :
  String.length p ≤ String.length x → startswith (x +:+ y) p = startswith x p.
Proof.
  revert x. induction p as [|a p IH]; intros x H; [done |].
  destruct x as [|b x]; simpl in H; [lia |].
  rewrite str_app_cons. simpl. destruct (Ascii.eqb a b); [| done]. apply IH. lia.
Qed.

Lemma startswith_nil (p : string) : p ≠ "" → startswith "" p = false.
Proof. by destruct p. Qed.

Lemma contains_cons (sub : string) (c : ascii) (s : string) :
  contains sub (String c s) = startswith (String c s) sub || contains sub s.
Proof. reflexivity. Qed.

Lemma contains_startswith (sub s : string) :
  contains sub s = false → startswith s sub = false.
Proof. destruct s; simpl; intros H; by apply orb_false_elim in H as [? _]. Qed.

Lemma contains_app_r (sub a b : string) :
  contains sub b = true → contains sub (a +:+ b) = true.
Proof.
  intros H. induction a as [|c a IH]; [done |].
  rewrite str_app_cons, contains_cons, IH. apply orb_true_r.
Qed.

Lemma contains_intro (a sub b : string) : contains sub (a +:+ sub +:+ b) = true.
Proof.
  apply contains_app_r. destruct (sub +:+ b) eqn:E; simpl.
  - destruct sub; [done | discriminate].
  - by rewrite <- E, startswith_app.
Qed.

Lemma contains_inv (sub s : string) :
  contains sub s = true → ∃ a b, s = a +:+ sub +:+ b.
Proof.
  induction s as [|c s IH]; simpl; intros H.
  - rewrite orb_false_r in H. apply startswith_inv in H as [t ->]. by exists "", t.
  - apply orb_true_iff in H as [H | H].
    + apply startswith_inv in H as [t ->]. by exists "", t.
    + destruct (IH H) as (a & b & ->). by exists (String c a), b.
Qed.

(** Membership of one character. *)
Lemma contains_char_cons (c x : ascii) (s : string) :
  contains (String c "") (String x s) = Ascii.eqb c x || contains (String c "") s.
Proof. rewrite contains_cons. simpl. by destruct (Ascii.eqb c x). Qed.

Lemma contains_char_app (c : ascii) (a b : string) :
  contains (String c "") (a +:+ b) =
    contains (String c "") a || contains (String c "") b.
Proof.
  induction a as [|x a IH]; [done |].
  by rewrite str_app_cons, !contains_char_cons, IH, orb_assoc.
Qed.

Lemma drop_string_app (a b : string) : drop_string (String.length a) (a +:+ b) = b.
Proof. induction a as [|c a IH]; [by destruct b | by rewrite str_app_cons]. Qed.

Lemma drop_string_nil (n : nat) : drop_string n "" = "".
Proof. by destruct n. Qed.

(** ** Literal substitution *)

Lemma subst_from_skip (pat rep : string) (k : nat) (s : string) :
  subst_from pat rep k s = subst_from pat rep 0 (drop_string k s).
Proof.
  revert k. induction s as [|c s IH]; intros k.
  - by rewrite drop_string_nil.
  - destruct k as [|k]; [done |]. simpl. apply IH.
Qed.

Lemma re_sub_nil (pat rep : string) : re_sub pat rep "" = "".
Proof. reflexivity. Qed.

Lemma re_sub_match (pat rep t : string) :
  pat ≠ "" → re_sub pat rep (pat +:+ t) = rep +:+ re_sub pat rep t.
Proof.
  intros Hp. destruct pat as [|a p]; [done |]. unfold re_sub.
  rewrite str_app_cons. cbn [subst_from]. rewrite <- str_app_cons, startswith_app.
  rewrite subst_from_skip.
  replace (String.length (String a p) - 1) with (String.length p) by (simpl; lia).
  by rewrite drop_string_app.
Qed.

Lemma re_sub_skip (pat rep : string) (c : ascii) (s : string) :
  startswith (String c s) pat = false →
  re_sub pat rep (String c s) = String c (re_sub pat rep s).
Proof. intros H. unfold re_sub. cbn [subst_from]. by rewrite H. Qed.

(** A cut that no occurrence of the pattern straddles splits the
    substitution. *)
Lemma re_sub_cut (pat rep x y : string) :
  pat ≠ "" →
  (∀ u v, x = u +:+ v → v ≠ "" →
     startswith (v +:+ y) pat = true → startswith v pat = true) →
  re_sub pat rep (x +:+ y) = re_sub pat rep x +:+ re_sub pat rep y.
Proof.
  intros Hp. remember (String.length x) as n eqn:Hn. revert x Hn.
  induction n as [n IH] using lt_wf_ind. intros x Hn Hcut.
  destruct x as [|c x]; [done |].
  destruct (startswith (String c x +:+ y) pat) eqn:E.
  - pose proof (Hcut "" (String c x) eq_refl ltac:(done) E) as Hx.
    apply startswith_inv in Hx as [t Ht]. rewrite Ht, str_app_assoc, !re_sub_match by done.
    rewrite str_app_assoc. f_equal. apply (IH (String.length t)); [| done |].
    + rewrite Hn, Ht, str_length_app. destruct pat; [done | simpl; lia].
    + intros u v -> Hne Hv. apply (Hcut (pat +:+ u) v); [| done | done].
      by rewrite Ht, str_app_assoc.
  - assert (startswith (String c x) pat = false) as E'.
    { destruct (startswith (String c x) pat) eqn:E'; [| done].
      by rewrite (startswith_app_l _ y _ E') in E. }
    rewrite str_app_cons in *. rewrite !re_sub_skip by done. rewrite str_app_cons. f_equal.
    apply (IH (String.length x)); [simpl in Hn; lia | done |].
    intros u v -> Hne Hv. by apply (Hcut (String c u) v).
Qed.

Lemma startswith_barrier (c : ascii) (v b pat : string) :
  contains (String c "") pat = false →
  startswith (v +:+ String c b) pat = true → startswith v pat = true.
Proof.
  revert v. induction pat as [|a p IH]; intros v Hc H; [done |].
  rewrite contains_char_cons in Hc. apply orb_false_elim in Hc as [Hca Hcp].
  destruct v as [|x v].
  - rewrite str_app_nil_l in H. simpl in H. rewrite Ascii.eqb_sym, Hca in H. done.
  - rewrite str_app_cons in H. simpl in *. destruct (Ascii.eqb a x); [| done]. by apply IH.
Qed.

(** A character foreign to the pattern is left alone and splits the
    substitution. *)
Lemma re_sub_barrier (pat rep : string) (c : ascii) (a b : string) :
  pat ≠ "" → contains (String c "") pat = false →
  re_sub pat rep (a +:+ String c b) =
    re_sub pat rep a +:+ String c (re_sub pat rep b).
Proof.
  intros Hp Hc. rewrite re_sub_cut; [| done |].
  - f_equal. apply re_sub_skip. destruct pat as [|x p]; [done |].
    rewrite contains_char_cons in Hc. apply orb_false_elim in Hc as [Hx _].
    simpl. by rewrite Ascii.eqb_sym, Hx.
  - intros u v _ _. by apply startswith_barrier.
Qed.

Lemma re_sub_absent (pat rep s : string) :
  contains pat s = false → re_sub pat rep s = s.
Proof.
  induction s as [|c s IH]; [done |]. rewrite contains_cons.
  intros [H1 H2]%orb_false_elim. rewrite re_sub_skip by done. by rewrite IH.
Qed.

(** ** Lines *)

Lemma newline_app (s : string) : newline +:+ s = String nl s.
Proof. reflexivity. Qed.

Lemma join_cons (sep x y : string) (l : list string) :
  join sep (x :: y :: l) = x +:+ sep +:+ join sep (y :: l).
Proof. reflexivity. Qed.

Lemma join_cons_char (sep : string) (c : ascii) (h : string) (t : list string) :
  join sep (String c h :: t) = String c (join sep (h :: t)).
Proof. by destruct t. Qed.

Lemma split_not_nil (sep : ascii) (s : string) : split sep s ≠ [].
Proof.
  destruct s as [|c s]; [done |]. simpl.
  destruct (Ascii.eqb c sep); [done |]. by destruct (split sep s).
Qed.

Lemma join_split (c : ascii) (s : string) : join (String c "") (split c s) = s.
Proof.
  induction s as [|x s IH]; [done |]. simpl.
  destruct (Ascii.eqb_spec x c) as [-> | Hne].
  - destruct (split c s) as [|h t] eqn:E; [by apply split_not_nil in E |].
    by rewrite join_cons, IH.
  - destruct (split c s) as [|h t] eqn:E; [by apply split_not_nil in E |].
    by rewrite join_cons_char, IH.
Qed.

Lemma split_sep_free (c : ascii) (s : string) :
  Forall (λ x, contains (String c "") x = false) (split c s).
Proof.
  induction s as [|x s IH]; [by repeat constructor |]. cbn [split].
  destruct (Ascii.eqb_spec x c) as [-> | Hx]; [by constructor |].
  assert (Ascii.eqb c x = false) as Hcx by (apply Ascii.eqb_neq; congruence).
  destruct (split c s) as [|h t].
  - repeat constructor. by rewrite contains_char_cons, Hcx.
  - inversion IH as [|? ? Hh Ht]; subst. constructor; [| done].
    by rewrite contains_char_cons, Hcx, Hh.
Qed.

Lemma split_app_sep (c : ascii) (a b : string) :
  split c (a +:+ String c b) = split c a ++ split c b.
Proof.
  induction a as [|x a IH].
  - rewrite str_app_nil_l. cbn [split]. by rewrite Ascii.eqb_refl.
  - rewrite str_app_cons. cbn [split]. rewrite IH.
    destruct (Ascii.eqb x c); [done |].
    destruct (split c a) as [|h t] eqn:E; [by apply split_not_nil in E | done].
Qed.

Lemma split_one (c : ascii) (f : string) :
  contains (String c "") f = false → split c f = [f].
Proof.
  induction f as [|x f IH]; [done |]. rewrite contains_char_cons.
  intros [Hx Hf]%orb_false_elim. cbn [split].
  rewrite Ascii.eqb_sym, Hx. by rewrite IH.
Qed.

Lemma split_join (c : ascii) (l : list string) :
  l ≠ [] → Forall (λ x, contains (String c "") x = false) l →
  split c (join (String c "") l) = l.
Proof.
  intros Hl H. induction H as [|x l Hx H IH]; [done |].
  destruct l as [|y l]; [by apply split_one |].
  rewrite join_cons.
  change (String c "" +:+ join (String c "") (y :: l))
    with (String c (join (String c "") (y :: l))).
  by rewrite split_app_sep, split_one, IH.
Qed.

Lemma join_app (sep : string) (l1 : list string) (x : string) (l2 : list string) :
  join sep (l1 ++ x :: l2) =
    match l1 with
    | [] => join sep (x :: l2)
    | _ => join sep l1 +:+ sep +:+ join sep (x :: l2)
    end.
Proof.
  induction l1 as [|a l1 IH]; [done |].
  destruct l1 as [|b l1]; [done |].
  rewrite <- !app_comm_cons in *. by rewrite !join_cons, IH, !str_app_assoc.
Qed.

(** Whatever is joined, a member of the list lies between two texts. *)
Lemma join_middle (sep : string) (l1 : list string) (x : string) (l2 : list string) :
  ∃ a b, join sep (l1 ++ x :: l2) = a +:+ x +:+ b.
Proof.
  assert (∃ b, join sep (x :: l2) = x +:+ b) as [b Hb].
  { destruct l2; [exists ""; by rewrite str_app_nil_r | by eexists]. }
  rewrite join_app, Hb. destruct l1 as [|y l1].
  - by exists "", b.
  - exists (join sep (y :: l1) +:+ sep), b. by rewrite !str_app_assoc.
Qed.

Lemma last_import_from_app (l1 l2 : list string) (i last : Z) :
  last_import_from (l1 ++ l2) i last =
    last_import_from l2 (i + Z.of_nat (length l1)) (last_import_from l1 i last).
Proof.
  revert i last. induction l1 as [|x l1 IH]; intros i last.
  - simpl. by rewrite Z.add_0_r.
  - cbn [app last_import_from length]. rewrite IH. f_equal. lia.
Qed.

Lemma last_import_from_none (l : list string) (i last : Z) :
  no_import_line l = true → last_import_from l i last = last.
Proof.
  revert i. induction l as [|x l IH]; intros i H; [done |].
  apply andb_true_iff in H as [Hx%negb_true_iff Hl]. simpl. rewrite Hx. by apply IH.
Qed.

Lemma last_import_from_last (l1 : list string) (imp : string) (l2 : list string) :
  is_import_line imp = true → no_import_line l2 = true →
  last_import_from (l1 ++ imp :: l2) 0 (-1) = Z.of_nat (length l1).
Proof.
  intros Hi Hl. rewrite last_import_from_app. cbn [last_import_from].
  rewrite Hi. by rewrite last_import_from_none.
Qed.

Lemma list_insert_at_after {A} (l1 : list A) (a x : A) (l2 : list A) :
  list_insert_at (length l1 + 1) x (l1 ++ a :: l2) = l1 ++ a :: x :: l2.
Proof.
  unfold list_insert_at.
  replace (l1 ++ a :: l2) with ((l1 ++ [a]) ++ l2) by by rewrite <- app_assoc.
  replace (length l1 + 1) with (length (l1 ++ [a])) by (rewrite length_app; simpl; lia).
  rewrite take_app_length, drop_app_length. by rewrite <- app_assoc.
Qed.

Lemma add_import_after (filepath content : string) l1 imp l2 :
  split nl content = l1 ++ imp :: l2 →
  is_import_line imp = true → no_import_line l2 = true →
  add_import filepath content =
    join newline (l1 ++ imp :: import_statement (get_scope filepath) :: l2).
Proof.
  intros Hs Hi Hl. unfold add_import. fold nl. rewrite Hs.
  rewrite last_import_from_last by done.
  destruct (Z.leb_spec 0 (Z.of_nat (length l1))) as [_ | ?]; [| lia].
  replace (Z.to_nat (Z.of_nat (length l1) + 1)) with (length l1 + 1) by lia.
  by rewrite list_insert_at_after.
Qed.

Lemma add_import_top (filepath content : string) :
  no_import_line (split nl content) = true →
  add_import filepath content =
    import_statement (get_scope filepath) +:+ newline +:+ content.
Proof.
  intros H. unfold add_import. fold nl. by rewrite last_import_from_none.
Qed.

(** Either there is a last import line or there is none. *)
Lemma last_import_cases (l : list string) :
  no_import_line l = true ∨
  ∃ l1 imp l2, l = l1 ++ imp :: l2 ∧ is_import_line imp = true ∧
               no_import_line l2 = true.
Proof.
  induction l as [|x l IH]; [by left |].
  destruct IH as [H | (l1 & imp & l2 & -> & Hi & Hl)].
  - destruct (is_import_line x) eqn:E.
    + right. by exists [], x, l.
    + left. simpl. by rewrite E.
  - right. by exists (x :: l1), imp, l2.
Qed.

(** ** The five substitutions *)

Lemma re_sub_join (pat rep : string) (c : ascii) (l : list string) :
  pat ≠ "" → contains (String c "") pat = false →
  re_sub pat rep (join (String c "") l) =
    join (String c "") (map (re_sub pat rep) l).
Proof.
  intros Hp Hc. induction l as [|x l IH]; [done |].
  destruct l as [|y l]; [done |].
  rewrite join_cons. change (String c "" +:+ join (String c "") (y :: l))
    with (String c (join (String c "") (y :: l))).
  rewrite re_sub_barrier, IH by done. reflexivity.
Qed.

Lemma foreign_pattern (c : ascii) (pat : string) :
  foreign c = true → all_chars (λ x, contains (String x "") alphabet) pat = true →
  contains (String c "") pat = false.
Proof.
  intros Hf%negb_true_iff. induction pat as [|x pat IH]; [done |].
  cbn [all_chars]. intros [Hx Hp]%andb_true_iff.
  rewrite contains_char_cons, IH by done.
  destruct (Ascii.eqb_spec c x) as [-> | _]; [| done].
  fold alphabet in Hf. by rewrite Hx in Hf.
Qed.

Lemma replace_console_barrier (c : ascii) (a b : string) :
  foreign c = true →
  replace_console (a +:+ String c b) =
    replace_console a +:+ String c (replace_console b).
Proof.
  intros Hf. unfold replace_console.
  by rewrite !re_sub_barrier by (done || by apply foreign_pattern).
Qed.

(** The substitutions work line by line. *)
Lemma replace_console_join (l : list string) :
  replace_console (join newline l) = join newline (map replace_console l).
Proof.
  induction l as [|x l IH]; [done |].
  destruct l as [|y l]; [done |].
  rewrite join_cons, newline_app, replace_console_barrier, IH by done.
  reflexivity.
Qed.

(** ** Text in front of a parenthesis *)

Lemma rev_string_acc (acc s : string) : rev_string acc s = srev s +:+ acc.
Proof.
  unfold srev. revert acc. induction s as [|c s IH]; intros acc; [done |].
  cbn [rev_string]. rewrite IH, (IH (String c "")). by rewrite str_app_assoc.
Qed.

Lemma srev_cons (c : ascii) (s : string) : srev (String c s) = srev s +:+ String c "".
Proof. unfold srev at 1. cbn [rev_string]. apply rev_string_acc. Qed.

Lemma srev_app (a b : string) : srev (a +:+ b) = srev b +:+ srev a.
Proof.
  induction a as [|c a IH]; [by rewrite str_app_nil_r |].
  by rewrite str_app_cons, !srev_cons, IH, str_app_assoc.
Qed.

Lemma srev_involutive (s : string) : srev (srev s) = s.
Proof.
  induction s as [|c s IH]; [done |]. by rewrite srev_cons, srev_app, IH.
Qed.

Lemma endswith_cons (x : ascii) (t q : string) :
  endswith (String x t) q = String.eqb (String x t) q || endswith t q.
Proof. reflexivity. Qed.

Lemma endswith_length (t q : string) :
  endswith t q = true → String.length q ≤ String.length t.
Proof.
  induction t as [|x t IH]; cbn [endswith]; intros [H | H]%orb_true_iff; try done.
  - by apply String.eqb_eq in H as <-.
  - apply String.eqb_eq in H as <-. done.
  - apply IH in H. simpl. lia.
Qed.

Lemma endswith_iff (t q : string) : endswith t q = true ↔ ∃ u, t = u +:+ q.
Proof.
  split.
  - induction t as [|x t IH]; cbn [endswith]; intros [H | H]%orb_true_iff; try done.
    + apply String.eqb_eq in H as <-. by exists "".
    + apply String.eqb_eq in H as <-. by exists "".
    + destruct (IH H) as [u ->]. by exists (String x u).
  - intros [u ->]. induction u as [|x u IH].
    + rewrite str_app_nil_l. destruct q; cbn [endswith]; by rewrite String.eqb_refl.
    + rewrite str_app_cons, endswith_cons, IH. apply orb_true_r.
Qed.

Lemma endswith_srev (t q : string) : endswith t q = startswith (srev t) (srev q).
Proof.
  destruct (endswith t q) eqn:E.
  - apply endswith_iff in E as [u ->]. by rewrite srev_app, startswith_app.
  - destruct (startswith (srev t) (srev q)) eqn:E'; [| done].
    apply startswith_inv in E' as [r Hr]. apply (f_equal srev) in Hr.
    rewrite srev_involutive, srev_app, srev_involutive in Hr.
    assert (endswith t q = true) as E'' by (apply endswith_iff; eauto).
    by rewrite E'' in E.
Qed.

(** The form in which an ending is decided by computation. *)
Lemma endswith_app (u a q : string) :
  endswith (u +:+ a) q = startswith (srev a +:+ srev u) (srev q).
Proof. by rewrite endswith_srev, srev_app. Qed.

Lemma swap_suffix_app (old new u : string) :
  swap_suffix old new (u +:+ old) = u +:+ new.
Proof.
  induction u as [|x u IH].
  - rewrite !str_app_nil_l. destruct old; cbn [swap_suffix]; by rewrite String.eqb_refl.
  - rewrite !str_app_cons. cbn [swap_suffix]. rewrite IH.
    destruct (String.eqb_spec (String x (u +:+ old)) old) as [E | _]; [| done].
    apply (f_equal String.length) in E. cbn [String.length] in E.
    rewrite str_length_app in E. lia.
Qed.

Lemma swap_suffix_absent (old new t : string) :
  endswith t old = false → swap_suffix old new t = t.
Proof.
  induction t as [|x t IH]; cbn [endswith swap_suffix];
    intros [H1 H2]%orb_false_elim; rewrite H1; [done |]. by rewrite IH.
Qed.

Lemma swap_suffix_plain (c : ascii) (old new t : string) :
  contains (String c "") new = false → contains (String c "") t = false →
  contains (String c "") (swap_suffix old new t) = false.
Proof.
  intros Hn. induction t as [|x t IH]; intros Ht; cbn [swap_suffix].
  - by destruct (String.eqb "" old).
  - destruct (String.eqb (String x t) old); [done |].
    rewrite contains_char_cons in *. apply orb_false_elim in Ht as [-> Ht].
    by apply IH.
Qed.

(** A text without a character holds no pattern with that character. *)
Lemma contains_char_absent (c : ascii) (pat t : string) :
  contains (String c "") t = false → contains (String c "") pat = true →
  contains pat t = false.
Proof.
  intros Ht Hp. destruct (contains pat t) eqn:E; [| done].
  apply contains_inv in E as (a & b & ->).
  rewrite !contains_char_app, Hp, orb_true_r in Ht. done.
Qed.

Lemma occurrences_cons (pat : string) (c : ascii) (s : string) :
  occurrences pat (String c s) = bit (startswith (String c s) pat) + occurrences pat s.
Proof. reflexivity. Qed.

Lemma occurrences_absent (pat s : string) :
  contains pat s = false → occurrences pat s = 0.
Proof.
  induction s as [|c s IH].
  - simpl. intros H. rewrite orb_false_r in H. by rewrite H.
  - rewrite contains_cons, occurrences_cons. intros [-> H]%orb_false_elim.
    by rewrite IH.
Qed.

(** In front of the first parenthesis a pattern [q(] matches exactly when the
    text up to the parenthesis is [q]. *)
Lemma startswith_call (t q s : string) :
  contains "(" t = false → contains "(" q = false →
  startswith (t +:+ String "(" s) (q +:+ "(") = String.eqb t q.
Proof.
  revert q. induction t as [|x t IH]; intros q Ht Hq.
  - rewrite str_app_nil_l. destruct q as [|y q]; [done |].
    rewrite contains_char_cons in Hq. apply orb_false_elim in Hq as [Hy _].
    rewrite str_app_cons. cbn [startswith String.eqb].
    by rewrite Ascii.eqb_sym, Hy.
  - rewrite contains_char_cons in Ht. apply orb_false_elim in Ht as [Hx Ht].
    rewrite str_app_cons. destruct q as [|y q].
    + rewrite str_app_nil_l. cbn [startswith String.eqb]. by rewrite Hx.
    + rewrite contains_char_cons in Hq. apply orb_false_elim in Hq as [_ Hq].
      rewrite str_app_cons. cbn [startswith String.eqb].
      rewrite (Ascii.eqb_sym y x). destruct (Ascii.eqb x y); [by apply IH | done].
Qed.

Lemma re_sub_call (old new t s : string) :
  contains "(" old = false → contains "(" t = false →
  re_sub (old +:+ "(") (new +:+ "(") (t +:+ String "(" s) =
    swap_suffix old new t +:+ String "(" (re_sub (old +:+ "(") (new +:+ "(") s).
Proof.
  intros Ho. assert (old +:+ "(" ≠ "") as Hne by by destruct old.
  induction t as [|x t IH]; intros Ht.
  - cbn [swap_suffix]. destruct (String.eqb_spec "" old) as [<- | E].
    + rewrite !str_app_nil_l. change (String "(" s) with ("(" +:+ s).
      rewrite re_sub_match by done. by rewrite str_app_assoc.
    + rewrite !str_app_nil_l, re_sub_skip; [done |].
      rewrite <- (str_app_nil_l (String "(" s)), startswith_call by done.
      by apply String.eqb_neq.
  - cbn [swap_suffix]. destruct (String.eqb_spec (String x t) old) as [E | E].
    + rewrite <- E in *. change (String "(" s) with ("(" +:+ s).
      rewrite <- str_app_assoc, re_sub_match by done. by rewrite str_app_assoc.
    + rewrite str_app_cons, re_sub_skip.
      * rewrite IH; [done |]. rewrite contains_char_cons in Ht.
        by apply orb_false_elim in Ht as [_ Ht].
      * rewrite <- str_app_cons, startswith_call by done.
        by apply String.eqb_neq.
Qed.

Lemma occurrences_call (q t s : string) :
  contains "(" q = false → contains "(" t = false →
  occurrences (q +:+ "(") (t +:+ String "(" s) =
    bit (endswith t q) + occurrences (q +:+ "(") s.
Proof.
  intros Hq. induction t as [|x t IH]; intros Ht.
  - rewrite str_app_nil_l, occurrences_cons.
    rewrite <- (str_app_nil_l (String "(" s)), startswith_call by done.
    cbn [endswith]. by rewrite orb_false_r.
  - rewrite str_app_cons, occurrences_cons, <- str_app_cons.
    rewrite startswith_call by done. rewrite endswith_cons.
    rewrite contains_char_cons in Ht. apply orb_false_elim in Ht as [_ Ht].
    rewrite IH by done.
    destruct (String.eqb_spec (String x t) q) as [E | _]; [| done].
    destruct (endswith t q) eqn:E'; [| done].
    apply endswith_length in E'. rewrite <- E in E'. simpl in E'. lia.
Qed.

(** Every text is free of parentheses or starts with a parenthesis-free text
    and a parenthesis. *)
Lemma paren_ind (P : string → Prop) :
  (∀ t, contains "(" t = false → P t) →
  (∀ t s, contains "(" t = false → P s → P (t +:+ String "(" s)) →
  ∀ s, P s.
Proof.
  intros Hfree Hcall s.
  assert (P s ∧ (contains "(" s = false ∨
                 ∃ t s', s = t +:+ String "(" s' ∧ contains "(" t = false ∧ P s'))
    as [H _]; [| done].
  induction s as [|c s [IH IH']].
  - split; [by apply Hfree | by left].
  - destruct (Ascii.eqb_spec "(" c) as [<- | Hc].
    + split; [apply (Hcall "" s); done |]. right. by exists "", s.
    + assert (contains "(" (String c "") = false) as Hc'.
      { rewrite contains_char_cons. by apply Ascii.eqb_neq in Hc as ->. }
      destruct IH' as [Hs | (t & s' & -> & Ht & Hs')].
      * assert (contains "(" (String c s) = false) as Hcs.
        { change (String c s) with (String c "" +:+ s).
          by rewrite contains_char_app, Hc', Hs. }
        split; [by apply Hfree | by left].
      * assert (contains "(" (String c t) = false) as Hct.
        { change (String c t) with (String c "" +:+ t).
          by rewrite contains_char_app, Hc', Ht. }
        split; [| right; by exists (String c t), s'].
        rewrite <- str_app_cons. by apply Hcall.
Qed.

(** ** The five substitutions, call by call *)

Lemma replace_console_call (t s : string) :
  contains "(" t = false →
  replace_console (t +:+ String "(" s) =
    rewrite_call t +:+ String "(" (replace_console s).
Proof.
  intros Ht. unfold replace_console, rewrite_call.
  change "console.log(" with ("console.log" +:+ "(").
  change "console.error(" with ("console.error" +:+ "(").
  change "console.warn(" with ("console.warn" +:+ "(").
  change "console.info(" with ("console.info" +:+ "(").
  change "console.debug(" with ("console.debug" +:+ "(").
  change "logger.info(" with ("logger.info" +:+ "(").
  change "logger.error(" with ("logger.error" +:+ "(").
  change "logger.warn(" with ("logger.warn" +:+ "(").
  change "logger.debug(" with ("logger.debug" +:+ "(").
  by rewrite !re_sub_call by (done || (repeat apply swap_suffix_plain; done)).
Qed.

Lemma replace_console_plain (t : string) :
  contains "(" t = false → replace_console t = t.
Proof.
  intros Ht. unfold replace_console.
  rewrite (re_sub_absent "console.log(") by (by apply (contains_char_absent "(")).
  rewrite (re_sub_absent "console.error(") by (by apply (contains_char_absent "(")).
  rewrite (re_sub_absent "console.warn(") by (by apply (contains_char_absent "(")).
  rewrite (re_sub_absent "console.info(") by (by apply (contains_char_absent "(")).
  by rewrite (re_sub_absent "console.debug(") by (by apply (contains_char_absent "(")).
Qed.

Ltac decide_ending := rewrite ?endswith_app; reflexivity.
Ltac pass_rule old := rewrite (swap_suffix_absent old) by decide_ending.
Ltac apply_rule old := rewrite (swap_suffix_app old).

Lemma rewrite_call_log (u : string) :
  rewrite_call (u +:+ "console.log") = u +:+ "logger.info".
Proof.
  unfold rewrite_call. apply_rule "console.log". pass_rule "console.error".
  pass_rule "console.warn". pass_rule "console.info". by pass_rule "console.debug".
Qed.

Lemma rewrite_call_error (u : string) :
  rewrite_call (u +:+ "console.error") = u +:+ "logger.error".
Proof.
  unfold rewrite_call. pass_rule "console.log". apply_rule "console.error".
  pass_rule "console.warn". pass_rule "console.info". by pass_rule "console.debug".
Qed.

Lemma rewrite_call_warn (u : string) :
  rewrite_call (u +:+ "console.warn") = u +:+ "logger.warn".
Proof.
  unfold rewrite_call. pass_rule "console.log". pass_rule "console.error".
  apply_rule "console.warn". pass_rule "console.info". by pass_rule "console.debug".
Qed.

Lemma rewrite_call_info (u : string) :
  rewrite_call (u +:+ "console.info") = u +:+ "logger.info".
Proof.
  unfold rewrite_call. pass_rule "console.log". pass_rule "console.error".
  pass_rule "console.warn". apply_rule "console.info". by pass_rule "console.debug".
Qed.

Lemma rewrite_call_debug (u : string) :
  rewrite_call (u +:+ "console.debug") = u +:+ "logger.debug".
Proof.
  unfold rewrite_call. pass_rule "console.log". pass_rule "console.error".
  pass_rule "console.warn". pass_rule "console.info". by apply_rule "console.debug".
Qed.

Lemma rewrite_call_other (t : string) :
  endswith t "console.log" = false → endswith t "console.error" = false →
  endswith t "console.warn" = false → endswith t "console.info" = false →
  endswith t "console.debug" = false →
  rewrite_call t = t.
Proof.
  intros H1 H2 H3 H4 H5. unfold rewrite_call.
  rewrite (swap_suffix_absent "console.log") by done.
  rewrite (swap_suffix_absent "console.error") by done.
  rewrite (swap_suffix_absent "console.warn") by done.
  rewrite (swap_suffix_absent "console.info") by done.
  by rewrite (swap_suffix_absent "console.debug").
Qed.

Lemma rewrite_call_counts (t : string) : call_counts t (rewrite_call t).
Proof.
  destruct (endswith t "console.log") eqn:E1.
  { apply endswith_iff in E1 as [u ->]. rewrite rewrite_call_log.
    split; decide_ending. }
  destruct (endswith t "console.error") eqn:E2.
  { apply endswith_iff in E2 as [u ->]. rewrite rewrite_call_error.
    split; decide_ending. }
  destruct (endswith t "console.warn") eqn:E3.
  { apply endswith_iff in E3 as [u ->]. rewrite rewrite_call_warn.
    split; decide_ending. }
  destruct (endswith t "console.info") eqn:E4.
  { apply endswith_iff in E4 as [u ->]. rewrite rewrite_call_info.
    split; decide_ending. }
  destruct (endswith t "console.debug") eqn:E5.
  { apply endswith_iff in E5 as [u ->]. rewrite rewrite_call_debug.
    split; decide_ending. }
  rewrite rewrite_call_other by done.
  split; rewrite ?E1, ?E2, ?E3, ?E4, ?E5; cbn [bit]; lia || done.
Qed.

Lemma rewrite_call_plain (t : string) :
  contains "(" t = false → contains "(" (rewrite_call t) = false.
Proof. intros Ht. unfold rewrite_call. repeat apply swap_suffix_plain; done. Qed.

(** The substitutions bring no line end into a text. *)
Lemma replace_console_no_newline (s : string) :
  contains (String nl "") s = false →
  contains (String nl "") (replace_console s) = false.
Proof.
  induction s as [t Ht | t s Ht IH] using paren_ind; intros H.
  - by rewrite replace_console_plain.
  - rewrite contains_char_app, contains_char_cons in H.
    apply orb_false_elim in H as [H1 [_ H2]%orb_false_elim].
    rewrite replace_console_call, contains_char_app, contains_char_cons by done.
    rewrite IH by done. unfold rewrite_call.
    assert (contains (String nl "")
              (swap_suffix "console.debug" "logger.debug"
                 (swap_suffix "console.info" "logger.info"
                    (swap_suffix "console.warn" "logger.warn"
                       (swap_suffix "console.error" "logger.error"
                          (swap_suffix "console.log" "logger.info" t))))) = false)
      as -> by (repeat apply swap_suffix_plain; done).
    done.
Qed.

Ltac split_patterns :=
  change "console.log(" with ("console.log" +:+ "(") in *;
  change "console.error(" with ("console.error" +:+ "(") in *;
  change "console.warn(" with ("console.warn" +:+ "(") in *;
  change "console.info(" with ("console.info" +:+ "(") in *;
  change "console.debug(" with ("console.debug" +:+ "(") in *;
  change "logger.info(" with ("logger.info" +:+ "(") in *;
  change "logger.error(" with ("logger.error" +:+ "(") in *;
  change "logger.warn(" with ("logger.warn" +:+ "(") in *;
  change "logger.debug(" with ("logger.debug" +:+ "(") in *.

Lemma replace_console_counts (s : string) : text_counts s (replace_console s).
Proof.
  induction s as [t Ht | t s Ht IH] using paren_ind.
  - rewrite replace_console_plain by done.
    split; rewrite !occurrences_absent
      by (by apply (contains_char_absent "(")); done.
  - rewrite replace_console_call by done.
    pose proof (rewrite_call_counts t) as Hc.
    pose proof (rewrite_call_plain t Ht) as Ht'.
    destruct IH, Hc. split; split_patterns;
      rewrite !occurrences_call by done; rewrite ?no_log0, ?no_error0, ?no_warn0,
        ?no_info0, ?no_debug0; cbn [bit]; lia.
Qed.

Lemma occurrences_barrier (pat : string) (c : ascii) (a b : string) :
  pat ≠ "" → contains (String c "") pat = false →
  occurrences pat (a +:+ String c b) = occurrences pat a + occurrences pat b.
Proof.
  intros Hp Hc. induction a as [|x a IH].
  - rewrite str_app_nil_l, occurrences_cons. cbn [occurrences].
    rewrite startswith_nil by done. destruct pat as [|y pat]; [done |].
    rewrite contains_char_cons in Hc. apply orb_false_elim in Hc as [Hy _].
    cbn [startswith]. by rewrite Ascii.eqb_sym, Hy.
  - rewrite str_app_cons, !occurrences_cons, IH.
    replace (startswith (String x (a +:+ String c b)) pat)
      with (startswith (String x a) pat); [lia |].
    rewrite <- str_app_cons.
    destruct (startswith (String x a) pat) eqn:E.
    + by rewrite startswith_app_l.
    + destruct (startswith (String x a +:+ String c b) pat) eqn:E'; [| done].
      apply startswith_barrier in E'; [| done]. by rewrite E' in E.
Qed.

Lemma occurrences_join (pat : string) (c : ascii) (l : list string) :
  pat ≠ "" → contains (String c "") pat = false →
  occurrences pat (join (String c "") l) = sum_list_with (occurrences pat) l.
Proof.
  intros Hp Hc. induction l as [|x l IH].
  - simpl. by rewrite startswith_nil.
  - destruct l as [|y l]; [simpl; lia |].
    rewrite join_cons.
    change (String c "" +:+ join (String c "") (y :: l))
      with (String c (join (String c "") (y :: l))).
    rewrite occurrences_barrier, IH by done. reflexivity.
Qed.

Lemma sum_list_insert_at (f : string → nat) (n : nat) (x : string) (l : list string) :
  sum_list_with f (list_insert_at n x l) = f x + sum_list_with f l.
Proof.
  unfold list_insert_at. rewrite <- (take_drop n l) at 3.
  rewrite !sum_list_with_app. cbn [sum_list_with]. lia.
Qed.

(** The injection adds the calls of the snippet to those of the content. *)
Lemma occurrences_add_import (pat filepath content : string) :
  pat ≠ "" → contains (String nl "") pat = false →
  occurrences pat (add_import filepath content) =
    occurrences pat (import_statement (get_scope filepath)) +
    occurrences pat content.
Proof.
  intros Hp Hc. unfold add_import. fold nl.
  destruct (0 <=? last_import_from (split nl content) 0 (-1))%Z.
  - rewrite (occurrences_join pat nl), sum_list_insert_at by done.
    by rewrite <- (occurrences_join pat nl), join_split by done.
  - rewrite newline_app. by apply occurrences_barrier.
Qed.

(** ** Newline translation *)

Lemma universal_newlines_crlf (s : string) :
  universal_newlines (String cr (String nl s)) = String nl (universal_newlines s).
Proof. reflexivity. Qed.

Lemma universal_newlines_cr (s : string) :
  startswith s (String nl "") = false →
  universal_newlines (String cr s) = String nl (universal_newlines s).
Proof.
  intros H. cbn [universal_newlines]. rewrite Ascii.eqb_refl. fold nl.
  destruct s as [|d s]; [done |]. cbn [startswith] in H.
  rewrite Ascii.eqb_sym. by destruct (Ascii.eqb nl d).
Qed.

Lemma universal_newlines_other (c : ascii) (s : string) :
  Ascii.eqb c cr = false →
  universal_newlines (String c s) = String c (universal_newlines s).
Proof. intros H. cbn [universal_newlines]. by rewrite H. Qed.

(** The cases of the translation. *)
Lemma newlines_ind (P : string → Prop) :
  P "" →
  (∀ s, P s → P (String cr (String nl s))) →
  (∀ s, startswith s (String nl "") = false → P s → P (String cr s)) →
  (∀ c s, Ascii.eqb c cr = false → P s → P (String c s)) →
  ∀ s, P s.
Proof.
  intros H0 H1 H2 H3 s. remember (String.length s) as n eqn:Hn. revert s Hn.
  induction n as [n IH] using lt_wf_ind. intros s Hn.
  destruct s as [|c s]; [done |]. cbn [String.length] in Hn.
  destruct (Ascii.eqb_spec c cr) as [-> | Hc].
  - destruct s as [|d s].
    + by apply H2.
    + destruct (Ascii.eqb_spec nl d) as [<- | Hd].
      * apply H1, (IH (String.length s)); [cbn [String.length] in Hn; lia | done].
      * apply H2; [| by apply (IH (String.length (String d s))); [lia |]].
        cbn [startswith]. by apply Ascii.eqb_neq in Hd as ->.
  - apply H3; [by apply Ascii.eqb_neq |]. by apply (IH (String.length s)); [lia |].
Qed.

Lemma startswith_foreign (c : ascii) (s pat : string) :
  pat ≠ "" → contains (String c "") pat = false →
  startswith (String c s) pat = false.
Proof.
  intros Hp Hc. destruct pat as [|a pat]; [done |].
  rewrite contains_char_cons in Hc. apply orb_false_elim in Hc as [Ha _].
  cbn [startswith]. by rewrite Ascii.eqb_sym, Ha.
Qed.

Lemma startswith_newlines (pat s : string) :
  contains (String cr "") pat = false → contains (String nl "") pat = false →
  startswith (universal_newlines s) pat = startswith s pat.
Proof.
  revert s. induction pat as [|a pat IH]; intros s Hcr Hnl; [done |].
  rewrite contains_char_cons in Hcr, Hnl.
  apply orb_false_elim in Hcr as [Hcr Hcr'], Hnl as [Hnl Hnl'].
  destruct s as [|c s]; [done |].
  destruct (Ascii.eqb_spec c cr) as [-> | Hc].
  - cbn [universal_newlines]. rewrite Ascii.eqb_refl. cbn [startswith]. fold nl.
    by rewrite (Ascii.eqb_sym a nl), Hnl, (Ascii.eqb_sym a cr), Hcr.
  - apply Ascii.eqb_neq in Hc. rewrite universal_newlines_other by done.
    cbn [startswith]. destruct (Ascii.eqb a c); [by apply IH | done].
Qed.

Lemma occurrences_newlines (pat s : string) :
  pat ≠ "" →
  contains (String cr "") pat = false → contains (String nl "") pat = false →
  occurrences pat (universal_newlines s) = occurrences pat s.
Proof.
  intros Hp Hcr Hnl. induction s as [| s IH | s Hs IH | c s Hc IH] using newlines_ind.
  - done.
  - rewrite universal_newlines_crlf, !occurrences_cons.
    by rewrite !startswith_foreign, IH by done.
  - rewrite universal_newlines_cr, !occurrences_cons by done.
    by rewrite !startswith_foreign, IH by done.
  - rewrite (occurrences_cons pat c s), <- IH.
    rewrite <- (startswith_newlines pat (String c s)) by done.
    rewrite universal_newlines_other by done. apply occurrences_cons.
Qed.

Lemma contains_newlines (pat s : string) :
  pat ≠ "" →
  contains (String cr "") pat = false → contains (String nl "") pat = false →
  contains pat (universal_newlines s) = contains pat s.
Proof.
  intros Hp Hcr Hnl. induction s as [| s IH | s Hs IH | c s Hc IH] using newlines_ind.
  - done.
  - rewrite universal_newlines_crlf, !contains_cons.
    by rewrite !startswith_foreign, IH by done.
  - rewrite universal_newlines_cr, !contains_cons by done.
    by rewrite !startswith_foreign, IH by done.
  - rewrite (contains_cons pat c s), <- IH.
    rewrite <- (startswith_newlines pat (String c s)) by done.
    rewrite universal_newlines_other by done. apply contains_cons.
Qed.

(** The decisions of [migrate_file] do not depend on the translation. *)
Lemma already_migrated_newlines (content : string) :
  already_migrated (universal_newlines content) = already_migrated content.
Proof. unfold already_migrated. by rewrite !contains_newlines. Qed.

Lemma has_console_newlines (content : string) :
  has_console (universal_newlines content) = has_console content.
Proof. unfold has_console. cbn [existsb]. by rewrite !contains_newlines. Qed.

(** ** The four outcomes of [migrate_file] *)

Section Outcomes.
Variables (filepath base_dir : string) (w : World).
Let full_path := path_join base_dir filepath.

Lemma migrate_file_missing :
  files w !! full_path = None →
  migrate_file filepath base_dir w =
    Some (false, say ("⚠️  File not found: " +:+ filepath) w).
Proof.
  intros H. unfold migrate_file, mbind, IO_bind, path_exists. fold full_path.
  cbv beta. rewrite H. by rewrite bool_decide_eq_false_2 by (by intros [? ?]).
Qed.

Lemma migrate_file_already content :
  files w !! full_path = Some content →
  already_migrated content = true →
  migrate_file filepath base_dir w =
    Some (false, say ("⊙ Already migrated: " +:+ filepath) w).
Proof.
  intros H Ha. unfold migrate_file, mbind, IO_bind, path_exists, read_file.
  fold full_path. cbv beta. rewrite H, bool_decide_eq_true_2 by eauto.
  cbn [negb]. rewrite H. cbv beta iota. by rewrite already_migrated_newlines, Ha.
Qed.

Lemma migrate_file_no_console content :
  files w !! full_path = Some content →
  already_migrated content = false →
  has_console content = false →
  migrate_file filepath base_dir w =
    Some (false, say ("⊙ No console statements: " +:+ filepath) w).
Proof.
  intros H Ha Hc. unfold migrate_file, mbind, IO_bind, path_exists, read_file.
  fold full_path. cbv beta. rewrite H, bool_decide_eq_true_2 by eauto.
  cbn [negb]. rewrite H. cbv beta iota.
  by rewrite already_migrated_newlines, has_console_newlines, Ha, Hc.
Qed.

Lemma migrate_file_migrated content :
  files w !! full_path = Some content →
  already_migrated content = false →
  has_console content = true →
  migrate_file filepath base_dir w =
    Some (true,
          mkWorld
            (<[full_path :=
                 replace_console (add_import filepath (universal_newlines content))]>
               (<[full_path +:+ ".bak" := universal_newlines content]> (files w)))
            (trace w ++
               [EvPrint ("→ Migrating: " +:+ filepath);
                EvWrite (full_path +:+ ".bak") (universal_newlines content);
                EvWrite full_path
                  (replace_console (add_import filepath (universal_newlines content)));
                EvPrint ("✓ Migrated: " +:+ filepath)])).
Proof.
  intros H Ha Hc. unfold migrate_file, mbind, IO_bind, path_exists, read_file.
  fold full_path. cbv beta. rewrite H, bool_decide_eq_true_2 by eauto.
  cbn [negb]. rewrite H. cbv beta iota.
  rewrite already_migrated_newlines, has_console_newlines, Ha, Hc. cbn [negb].
  unfold print, write_file, mret, IO_ret.
  cbn [files trace]. do 3 f_equal. by rewrite <- !(assoc_L (++)).
Qed.

(** Whatever the world, exactly one of the four cases applies. *)
Lemma migrate_file_cases :
  (files w !! full_path = None ∧
   migrate_file filepath base_dir w =
     Some (false, say ("⚠️  File not found: " +:+ filepath) w)) ∨
  (∃ content, files w !! full_path = Some content ∧
     ((already_migrated content = true ∧
       migrate_file filepath base_dir w =
         Some (false, say ("⊙ Already migrated: " +:+ filepath) w)) ∨
      (already_migrated content = false ∧ has_console content = false ∧
       migrate_file filepath base_dir w =
         Some (false, say ("⊙ No console statements: " +:+ filepath) w)) ∨
      (already_migrated content = false ∧ has_console content = true ∧
       migrate_file filepath base_dir w =
         Some (true,
           mkWorld
             (<[full_path :=
                  replace_console (add_import filepath (universal_newlines content))]>
                (<[full_path +:+ ".bak" := universal_newlines content]> (files w)))
             (trace w ++
                [EvPrint ("→ Migrating: " +:+ filepath);
                 EvWrite (full_path +:+ ".bak") (universal_newlines content);
                 EvWrite full_path
                   (replace_console
                      (add_import filepath (universal_newlines content)));
                 EvPrint ("✓ Migrated: " +:+ filepath)]))))).
Proof.
  destruct (files w !! full_path) as [content|] eqn:H.
  - right. exists content. split; [done |].
    destruct (already_migrated content) eqn:Ha.
    + left. split; [done |]. by eapply migrate_file_already.
    + right. destruct (has_console content) eqn:Hc.
      * right. repeat split; try done. by apply migrate_file_migrated.
      * left. repeat split; try done. by eapply migrate_file_no_console.
  - left. split; [done |]. by apply migrate_file_missing.
Qed.
End Outcomes.

Lemma migrate_file_total filepath base_dir w :
  ∃ ok w', migrate_file filepath base_dir w = Some (ok, w').
Proof.
  destruct (migrate_file_cases filepath base_dir w)
    as [[_ ->] | (c & _ & [[_ ->] | [(_ & _ & ->) | (_ & _ & ->)]])]; eauto.
Qed.

(** ** Applicability (C1) *)

(** C1, at a failing input.  The content refers to [console.error] without
    calling it: it holds no [console.<level>(] at all and no reference to the
    logger module, and yet [migrate_file] writes a backup, rewrites the file
    with an injected import and reports it migrated.  The applicability test
    [has_console] looks for [console.<level>] without the opening parenthesis
    that the five substitutions require. *)
Lemma migrate_file_reference_without_call :
  let content := "const report = console.error" +:+ newline in
  let w := mkWorld {[ "/repo/src/config/serverEnv.ts" := content ]} [] in
  has_console_call content = false ∧
  already_migrated content = false ∧
  ∃ w', migrate_file "src/config/serverEnv.ts" "/repo" w = Some (true, w') ∧
    files w' !! "/repo/src/config/serverEnv.ts" =
      Some ("import { createScopedLogger } from '@/lib/logger'" +:+ newline +:+
            newline +:+
            "const logger = createScopedLogger('config:serverEnv')" +:+ newline +:+
            newline +:+ content) ∧
    files w' !! "/repo/src/config/serverEnv.ts.bak" = Some content ∧
    trace w' =
      [EvPrint "→ Migrating: src/config/serverEnv.ts";
       EvWrite "/repo/src/config/serverEnv.ts.bak" content;
       EvWrite "/repo/src/config/serverEnv.ts"
         (replace_console (add_import "src/config/serverEnv.ts" content));
       EvPrint "✓ Migrated: src/config/serverEnv.ts"].
Proof.
  intros content w. split; [by vm_compute |]. split; [by vm_compute |].
  eexists. split.
  - apply (migrate_file_migrated _ _ w content); by vm_compute.
  - split; [by vm_compute |]. split; by vm_compute.
Qed.

(** ** Backup (C2) *)

Lemma universal_newlines_plain (s : string) :
  contains (String cr "") s = false → universal_newlines s = s.
Proof.
  induction s as [|c s IH]; [done |]. rewrite contains_char_cons.
  intros [Hc Hs]%orb_false_elim.
  rewrite universal_newlines_other by by rewrite Ascii.eqb_sym.
  by rewrite IH.
Qed.

(** When [migrate_file] migrates a file it writes exactly two files, in this
    order: first the backup, at the path of the file followed by [.bak],
    holding the text read from the file, then the file itself; the backup is
    the content of the file when that has no carriage return. *)
Lemma backup_before_overwrite filepath base_dir w w' :
  migrate_file filepath base_dir w = Some (true, w') →
  let full_path := path_join base_dir filepath in
  ∃ content new,
    files w !! full_path = Some content ∧
    trace w' = trace w ++
      [EvPrint ("→ Migrating: " +:+ filepath);
       EvWrite (full_path +:+ ".bak") (universal_newlines content);
       EvWrite full_path new;
       EvPrint ("✓ Migrated: " +:+ filepath)] ∧
    files w' !! (full_path +:+ ".bak") = Some (universal_newlines content) ∧
    files w' !! full_path = Some new ∧
    (contains (String cr "") content = false →
     files w' !! (full_path +:+ ".bak") = Some content).
Proof.
  intros H full_path.
  destruct (migrate_file_cases filepath base_dir w)
    as [[_ E] | (c & Hc & [[_ E] | [(_ & _ & E) | (_ & _ & E)]])];
    rewrite E in H; try discriminate.
  injection H as <-.
  exists c, (replace_console (add_import filepath (universal_newlines c))).
  fold full_path. cbn [files trace].
  assert (<[full_path:=replace_console (add_import filepath (universal_newlines c))]>
            (<[full_path +:+ ".bak":=universal_newlines c]> (files w))
            !! (full_path +:+ ".bak") = Some (universal_newlines c)) as Hb.
  { rewrite lookup_insert_ne by (apply not_eq_sym, app_neq_self; done).
    apply lookup_insert_eq. }
  repeat split; try done.
  - apply lookup_insert_eq.
  - intros Hcr. by rewrite Hb, universal_newlines_plain.
Qed.

(** C2, at a failing input.  The file has CR LF line ends.  [migrate_file]
    reads it in text mode, which turns each CR LF into LF, and writes that
    text to the backup: the backup, written before the file is overwritten,
    is not the content the file had. *)
Lemma backup_of_crlf_file :
  let content := "console.log(1)" +:+ String cr newline in
  let w := mkWorld {[ "/repo/src/hooks/useTVL.ts" := content ]} [] in
  files w !! "/repo/src/hooks/useTVL.ts" = Some content ∧
  ∃ w' new, migrate_file "src/hooks/useTVL.ts" "/repo" w = Some (true, w') ∧
    trace w' =
      [EvPrint "→ Migrating: src/hooks/useTVL.ts";
       EvWrite "/repo/src/hooks/useTVL.ts.bak" ("console.log(1)" +:+ newline);
       EvWrite "/repo/src/hooks/useTVL.ts" new;
       EvPrint "✓ Migrated: src/hooks/useTVL.ts"] ∧
    files w' !! "/repo/src/hooks/useTVL.ts.bak" = Some ("console.log(1)" +:+ newline) ∧
    files w' !! "/repo/src/hooks/useTVL.ts.bak" ≠ Some content.
Proof.
  intros content w. split; [by vm_compute |].
  eexists _, _. split.
  - apply (migrate_file_migrated _ _ w content); by vm_compute.
  - split; [by vm_compute |]. split; by vm_compute.
Qed.

(** ** The manifest loop (C7, C8) *)

Lemma main_loop_cons filepath rest base_dir c w ok w' :
  migrate_file filepath base_dir w = Some (ok, w') →
  main_loop (filepath :: rest) base_dir c w =
    main_loop rest base_dir (count_one ok c) w'.
Proof. intros H. cbn [main_loop]. unfold mbind, IO_bind. by rewrite H. Qed.

Lemma main_loop_app l1 l2 base_dir c w :
  main_loop (l1 ++ l2) base_dir c w =
    match main_loop l1 base_dir c w with
    | Some (c', w') => main_loop l2 base_dir c' w'
    | None => None
    end.
Proof.
  revert c w. induction l1 as [|p l1 IH]; intros c w; [done |].
  destruct (migrate_file_total p base_dir w) as (ok & w' & E).
  rewrite <- app_comm_cons, !(main_loop_cons _ _ _ _ _ _ _ E). apply IH.
Qed.

Lemma main_loop_counters manifest base_dir c w :
  ∃ c' w', main_loop manifest base_dir c w = Some (c', w') ∧
    total c' = total c + length manifest ∧
    migrated c' + skipped c' = migrated c + skipped c + length manifest.
Proof.
  revert c w. induction manifest as [|p l IH]; intros c w.
  - exists c, w. cbn [length]. repeat split; try done; lia.
  - destruct (migrate_file_total p base_dir w) as (ok & w' & E).
    rewrite (main_loop_cons _ _ _ _ _ _ _ E).
    destruct (IH (count_one ok c) w') as (c' & w'' & -> & Ht & Hs).
    exists c', w''. split; [done |]. cbn [length].
    destruct ok; cbn [count_one total migrated skipped] in *; lia.
Qed.

(** What [main] does around the loop: it only prints. *)
Lemma main_unfold base_dir w c w2 :
  main_loop FILES_TO_MIGRATE base_dir no_counters (banner w) = Some (c, w2) →
  ∃ w3, main base_dir w = Some (c, w3) ∧ files w3 = files w2.
Proof.
  intros H. unfold main, mbind, IO_bind. fold no_counters.
  unfold print at 1 2 3 4. cbn [files trace].
  unfold banner, say in H. cbn [files trace] in H.
  rewrite H. unfold print, mret, IO_ret. cbn [files trace].
  destruct (0 <? migrated c); cbn [files trace]; eauto.
Qed.



Lemma reported_app (prefix : string) (t1 t2 : list event) :
  reported prefix (t1 ++ t2) = reported prefix t1 + reported prefix t2.
Proof.
  induction t1 as [|[line | path content] t1 IH]; cbn [app reported]; [done | | done].
  rewrite IH. lia.
Qed.

(** One call of [migrate_file]: what it returns shows in the one line it
    prints about the outcome. *)
Lemma step_reported filepath base_dir w ok w' :
  migrate_file filepath base_dir w = Some (ok, w') →
  ∃ t, trace w' = trace w ++ t ∧
    reported "✓ Migrated: " t = bit ok ∧
    reported "⚠️  File not found: " t + reported "⊙ Already migrated: " t +
    reported "⊙ No console statements: " t = bit (negb ok).
Proof.
  intros H.
  destruct (migrate_file_cases filepath base_dir w)
    as [[_ E] | (c & _ & [[_ E] | [(_ & _ & E) | (_ & _ & E)]])];
    rewrite E in H; injection H as <- <-; cbn [say trace];
    eexists; (split; [reflexivity |]); cbn [reported];
    split; by vm_compute.
Qed.

Lemma main_loop_returns l base_dir c w :
  ∃ c' w' t, main_loop l base_dir c w = Some (c', w') ∧
    trace w' = trace w ++ t ∧
    length (returns l base_dir w) = length l ∧
    total c' = total c + length l ∧
    migrated c' + skipped c' = migrated c + skipped c + length l ∧
    migrated c' = migrated c + length (filter (λ ok, ok = true) (returns l base_dir w)) ∧
    skipped c' = skipped c + length (filter (λ ok, ok = false) (returns l base_dir w)) ∧
    length (filter (λ ok, ok = true) (returns l base_dir w)) =
      reported "✓ Migrated: " t ∧
    length (filter (λ ok, ok = false) (returns l base_dir w)) =
      reported "⚠️  File not found: " t + reported "⊙ Already migrated: " t +
      reported "⊙ No console statements: " t.
Proof.
  revert c w. induction l as [|p l IH]; intros c w.
  - exists c, w, []. cbn [returns length filter reported].
    rewrite app_nil_r. repeat split; try done; lia.
  - destruct (migrate_file_total p base_dir w) as (ok & w1 & E).
    rewrite (main_loop_cons _ _ _ _ _ _ _ E). cbn [returns]. rewrite E.
    destruct (IH (count_one ok c) w1)
      as (c' & w' & t & -> & Ht & Hl & H1 & H0 & H2 & H3 & H4 & H5).
    destruct (step_reported _ _ _ _ _ E) as (t1 & Ht1 & H6 & H7).
    exists c', w', (t1 ++ t). split; [done |].
    split; [by rewrite Ht, Ht1, <- (assoc_L (++)) |].
    rewrite !reported_app. cbn [length].
    destruct ok; cbn [count_one total migrated skipped bit negb] in *.
    + rewrite filter_cons_True, filter_cons_False by done. cbn [length].
      repeat split; lia.
    + rewrite filter_cons_False, filter_cons_True by done. cbn [length].
      repeat split; lia.
Qed.

(** The end of [main]: the summary of the counters of the loop. *)
Lemma main_summary base_dir w c w2 :
  main_loop FILES_TO_MIGRATE base_dir no_counters (banner w) = Some (c, w2) →
  ∃ w3 advice, main base_dir w = Some (c, w3) ∧
    trace w3 = trace w2 ++ summary c ++ advice.
Proof.
  intros H. unfold main, mbind, IO_bind. fold no_counters.
  unfold print at 1 2 3 4. cbn [files trace].
  unfold banner, say in H. cbn [files trace] in H.
  rewrite H. unfold print, mret, IO_ret. cbn [files trace].
  destruct (0 <? migrated c); cbn [files trace]; eexists _, _;
    (split; [reflexivity |]); cbn [trace]; rewrite <- !(assoc_L (++));
    unfold summary; cbn [app]; reflexivity.
Qed.

(** C8.  After any number [k] of iterations of the loop over a manifest,
    [total] is the number of entries processed, [migrated] is the number of
    calls of [migrate_file] that returned [True] and [skipped] the number of
    those that returned [False]; [migrated] is also the number of lines
    "Migrated" printed so far, and [skipped] the sum of the numbers of lines
    printed for the three reasons to skip a file: not found, already
    migrated, no console statements.  So [migrated + skipped = total], and
    the loop goes on from that state.  The counters of the summary of [main]
    are those of the loop over [FILES_TO_MIGRATE], with [total] its size. *)
Theorem counters_invariant manifest base_dir w k :
  (∃ c w' t,
     main_loop (take k manifest) base_dir no_counters w = Some (c, w') ∧
     trace w' = trace w ++ t ∧
     let oks := returns (take k manifest) base_dir w in
     length oks = length (take k manifest) ∧
     total c = length (take k manifest) ∧
     migrated c = length (filter (λ ok, ok = true) oks) ∧
     skipped c = length (filter (λ ok, ok = false) oks) ∧
     migrated c = reported "✓ Migrated: " t ∧
     skipped c =
       reported "⚠️  File not found: " t + reported "⊙ Already migrated: " t +
       reported "⊙ No console statements: " t ∧
     migrated c + skipped c = total c ∧
     main_loop manifest base_dir no_counters w =
       main_loop (drop k manifest) base_dir c w') ∧
  (∃ c wl w' t advice,
     main_loop FILES_TO_MIGRATE base_dir no_counters (banner w) = Some (c, wl) ∧
     main base_dir w = Some (c, w') ∧
     trace wl = trace (banner w) ++ t ∧
     trace w' = trace wl ++ summary c ++ advice ∧
     let oks := returns FILES_TO_MIGRATE base_dir (banner w) in
     total c = length FILES_TO_MIGRATE ∧
     migrated c = length (filter (λ ok, ok = true) oks) ∧
     skipped c = length (filter (λ ok, ok = false) oks) ∧
     migrated c = reported "✓ Migrated: " t ∧
     skipped c =
       reported "⚠️  File not found: " t + reported "⊙ Already migrated: " t +
       reported "⊙ No console statements: " t ∧
     migrated c + skipped c = total c).
Proof.
  split.
  - destruct (main_loop_returns (take k manifest) base_dir no_counters w)
      as (c & w' & t & E & Ht & Hl & H1 & H0 & H2 & H3 & H4 & H5).
    exists c, w', t. cbn [no_counters total migrated skipped] in *.
    repeat split; [done | done | done | lia | lia | lia | lia | lia | lia |].
    rewrite <- (take_drop k manifest) at 1. by rewrite main_loop_app, E.
  - destruct (main_loop_returns FILES_TO_MIGRATE base_dir no_counters (banner w))
      as (c & wl & t & E & Ht & Hl & H1 & H0 & H2 & H3 & H4 & H5).
    destruct (main_summary _ _ _ _ E) as (w3 & advice & Hm & Hs).
    exists c, wl, w3, t, advice. cbn [no_counters total migrated skipped] in *.
    repeat split; [done | done | done | done | lia | lia | lia | lia | lia | lia].
Qed.

(** ** Scope labels (C5, C9) *)

Lemma span_component_app (c rest : string) :
  contains "/" c = false →
  (rest =? "")%string || startswith rest "/" = true →
  span_component (c +:+ rest) = (c, rest).
Proof.
  intros Hc Hr. induction c as [|x c IH].
  - rewrite str_app_nil_l. destruct rest as [|y rest]; [done |].
    simpl in Hr. simpl. destruct (Ascii.eqb "/" y) eqn:E; [| done].
    by rewrite Ascii.eqb_sym, E.
  - rewrite contains_char_cons in Hc. apply orb_false_elim in Hc as [Hx Hc].
    rewrite str_app_cons. simpl. rewrite Ascii.eqb_sym, Hx. by rewrite IH.
Qed.

Lemma api_match_at_root (c1 tail : string) :
  component c1 = true →
  (tail =? "")%string || startswith tail "/" = true →
  api_match_at (api_root +:+ c1 +:+ tail) =
    match tail with
    | String _ rest' =>
        match span_component rest' with
        | (EmptyString, _) => Some c1
        | (c2, _) => Some (c1 +:+ "/" +:+ c2)
        end
    | EmptyString => Some c1
    end.
Proof.
  intros [Hne Hc]%andb_true_iff Ht. apply negb_true_iff in Hc.
  unfold api_match_at. rewrite startswith_app, drop_string_app.
  rewrite span_component_app by done.
  destruct c1 as [|x c1]; [done |]. destruct tail as [|y tail]; [done |].
  by destruct (span_component tail) as [[|z c2] r].
Qed.

Lemma re_search_api_cons (c : ascii) (s : string) :
  re_search_api (String c s) =
    match api_match_at (String c s) with
    | Some g => Some g
    | None => re_search_api s
    end.
Proof. reflexivity. Qed.

Lemma api_match_at_none (s : string) :
  startswith s api_root = false → api_match_at s = None.
Proof. intros H. unfold api_match_at. by rewrite H. Qed.

Lemma re_search_api_absent (s : string) :
  contains api_root s = false → re_search_api s = None.
Proof.
  induction s as [|c s IH]; [done |]. rewrite contains_cons.
  intros [H1 H2]%orb_false_elim.
  by rewrite re_search_api_cons, api_match_at_none, IH.
Qed.

(** The search passes over a prefix in which the root does not start. *)
Lemma re_search_api_skip (pre s : string) :
  contains api_root (pre +:+ "src/app/api") = false →
  re_search_api (pre +:+ api_root +:+ s) = re_search_api (api_root +:+ s).
Proof.
  induction pre as [|x pre IH]; [done |]. rewrite str_app_cons, contains_cons.
  intros [H1 H2]%orb_false_elim.
  rewrite str_app_cons, re_search_api_cons, api_match_at_none; [by apply IH |].
  rewrite <- H1.
  change api_root with ("src/app/api" +:+ "/") at 1.
  rewrite <- str_app_cons, str_app_assoc, <- (str_app_assoc (String x pre)).
  apply startswith_app_long.
  cbn [String.length]. rewrite str_length_app. simpl. lia.
Qed.

Lemma re_search_api_root (s g : string) :
  api_match_at (api_root +:+ s) = Some g → re_search_api (api_root +:+ s) = Some g.
Proof. intros H. change (api_root +:+ s) with (String "s" ("rc/app/api/" +:+ s)) in *.
  by rewrite re_search_api_cons, H. Qed.

Lemma str_replace_slash_component (c : string) :
  contains "/" c = false → str_replace "/" ":" c = c.
Proof. apply re_sub_absent. Qed.

Lemma str_replace_slash_two (c1 c2 : string) :
  contains "/" c1 = false → contains "/" c2 = false →
  str_replace "/" ":" (c1 +:+ "/" +:+ c2) = c1 +:+ ":" +:+ c2.
Proof.
  intros H1 H2. unfold str_replace. fold (re_sub "/" ":" (c1 +:+ "/" +:+ c2)).
  rewrite re_sub_cut; [| done |].
  - rewrite (re_sub_match "/" ":") by done.
    by rewrite !re_sub_absent by done.
  - intros u v _ Hv. destruct v as [|y v]; [done |]. intros H.
    by rewrite startswith_app_long in H by (simpl; lia).
Qed.

Lemma get_scope_api (filepath : string) :
  contains "api/" filepath = true →
  get_scope filepath =
    match re_search_api filepath with
    | Some g => Some ("api:" +:+ str_replace "/" ":" g)
    | None => Some "api:unknown"
    end.
Proof. intros H. unfold get_scope. by rewrite H. Qed.

(** C9.  For a path that contains [api/]: when the pattern of the API root has
    no match, in particular when [src/app/api/] does not occur, the scope is
    [api:unknown]; when the first [src/app/api/] is followed by a component
    [c1] and then by the end, by a final slash or by an empty component, the
    scope is [api:c1]; when it is followed by two components [c1/c2], the
    scope is [api:c1:c2]. *)
Theorem api_scope (filepath : string) :
  contains "api/" filepath = true →
  (re_search_api filepath = None → get_scope filepath = Some "api:unknown") ∧
  (contains api_root filepath = false → get_scope filepath = Some "api:unknown") ∧
  (∀ pre c1 tail,
     filepath = pre +:+ api_root +:+ c1 +:+ tail →
     contains api_root (pre +:+ "src/app/api") = false →
     component c1 = true →
     (tail =? "")%string || (tail =? "/")%string || startswith tail "//" = true →
     get_scope filepath = Some ("api:" +:+ c1)) ∧
  (∀ pre c1 c2 tail,
     filepath = pre +:+ api_root +:+ c1 +:+ "/" +:+ c2 +:+ tail →
     contains api_root (pre +:+ "src/app/api") = false →
     component c1 = true → component c2 = true →
     (tail =? "")%string || startswith tail "/" = true →
     get_scope filepath = Some ("api:" +:+ c1 +:+ ":" +:+ c2)).
Proof.
  intros Hapi. rewrite (get_scope_api _ Hapi). repeat split.
  - by intros ->.
  - intros H. by rewrite re_search_api_absent.
  - intros pre c1 tail -> Hpre Hc1 Ht.
    rewrite re_search_api_skip by done.
    assert (api_match_at (api_root +:+ c1 +:+ tail) = Some c1) as E.
    { rewrite api_match_at_root; [| done |].
      - destruct tail as [|y [|z tail]]; [done | done |].
        simpl in Ht. destruct (Ascii.eqb y "/"), (Ascii.eqb "/" y); try done.
        all: by destruct (Ascii.eqb_spec "/" z) as [<- | _].
      - destruct tail as [|y [|z tail]]; [done | |]; simpl in *.
        + rewrite (Ascii.eqb_sym y) in Ht. by destruct (Ascii.eqb "/" y).
        + rewrite (Ascii.eqb_sym y) in Ht. by destruct (Ascii.eqb "/" y). }
    rewrite (re_search_api_root _ _ E).
    apply andb_true_iff in Hc1 as [_ Hc1%negb_true_iff].
    by rewrite str_replace_slash_component.
  - intros pre c1 c2 tail -> Hpre Hc1 Hc2 Ht.
    rewrite re_search_api_skip by done.
    assert (api_match_at (api_root +:+ c1 +:+ "/" +:+ c2 +:+ tail) =
              Some (c1 +:+ "/" +:+ c2)) as E.
    { rewrite api_match_at_root; [| done | done].
      change ("/" +:+ c2 +:+ tail) with (String "/" (c2 +:+ tail)). cbv iota beta.
      apply andb_true_iff in Hc2 as [Hne Hc2%negb_true_iff].
      rewrite span_component_app by done. by destruct c2. }
    rewrite (re_search_api_root _ _ E).
    apply andb_true_iff in Hc1 as [_ Hc1%negb_true_iff].
    apply andb_true_iff in Hc2 as [_ Hc2%negb_true_iff].
    by rewrite str_replace_slash_two.
Qed.

Lemma api_scope_witness :
  get_scope "src/lib/api/client.ts" = Some "api:unknown" ∧
  get_scope "src/app/api/health" = Some "api:health" ∧
  get_scope "src/app/api/portfolio/update-prices/route.ts" =
    Some "api:portfolio:update-prices".
Proof.
  split; [| split].
  - apply (api_scope "src/lib/api/client.ts"); reflexivity.
  - apply (proj1 (proj2 (proj2 (api_scope "src/app/api/health" eq_refl)))
             "" "health" ""); reflexivity.
  - apply (proj2 (proj2 (proj2
             (api_scope "src/app/api/portfolio/update-prices/route.ts" eq_refl)))
             "" "portfolio" "update-prices" "/route.ts"); reflexivity.
Defined.

(** C5 as stated fails: this path of a validation service lies under a
    services directory and is labelled by the API rule, which comes first. *)
Lemma validation_service_under_api :
  let filepath := "src/app/api/rates/services/RateValidationService.ts" in
  contains "services/" filepath = true ∧
  contains "ValidationService" (path_name filepath) = true ∧
  get_scope filepath = Some "api:rates:services" ∧
  get_scope filepath ≠ Some ("validation:" +:+ stem filepath).
Proof. repeat split; vm_compute; congruence. Qed.

(** C5, amended.  A path with [services/] and [ValidationService] in it is
    never labelled [service:]; it is labelled [validation:] with the stem of
    its file name when it does not contain [api/]. *)
Theorem validation_before_service (filepath : string) :
  contains "services/" filepath = true →
  contains "ValidationService" filepath = true →
  (contains "api/" filepath = false →
   get_scope filepath = Some ("validation:" +:+ stem filepath)) ∧
  (∀ scope, get_scope filepath = Some scope → startswith scope "service:" = false).
Proof.
  intros Hs Hv. unfold get_scope. rewrite Hs, Hv. cbn [andb].
  destruct (contains "api/" filepath); split; try done.
  - intros scope. destruct (re_search_api filepath); by intros [= <-].
  - by intros scope [= <-].
Qed.

Lemma validation_before_service_witness :
  let filepath := "src/features/rates/services/RateValidationService.ts" in
  get_scope filepath = Some "validation:RateValidationService" ∧
  (∀ scope, get_scope filepath = Some scope → startswith scope "service:" = false).
Proof.
  intros filepath.
  destruct (validation_before_service filepath eq_refl eq_refl) as [H1 H2].
  split; [exact (H1 eq_refl) | exact H2].
Defined.

(** ** Import placement (C4) *)

Lemma migrated_content filepath base_dir w w' content :
  files w !! path_join base_dir filepath = Some content →
  migrate_file filepath base_dir w = Some (true, w') →
  already_migrated content = false ∧ has_console content = true ∧
  files w' !! path_join base_dir filepath =
    Some (replace_console (add_import filepath (universal_newlines content))).
Proof.
  intros Hc H.
  destruct (migrate_file_cases filepath base_dir w)
    as [[_ E] | (c & Hc' & [[_ E] | [(_ & _ & E) | (Ha & Hh & E)]])];
    rewrite E in H; try discriminate.
  rewrite Hc in Hc'. injection Hc' as <-. injection H as <-.
  repeat split; try done. apply lookup_insert_eq.
Qed.

(** C4, at a failing input.  The only import of the file is an ordinary
    import from the module [./types].  The loop that looks for the last
    import (the comment above it reads "Find last import") passes it over,
    because the line contains the letters [type]; the code then takes the
    branch commented "No imports found, add at beginning" and puts the
    snippet in front of the import instead of behind it. *)
Lemma import_from_types_module :
  let imp := "import { Rate } from './types'" in
  let content := imp +:+ newline +:+ "console.log(Rate)" +:+ newline in
  let snippet := import_statement (get_scope "src/hooks/useTVL.ts") in
  let w := mkWorld {[ "/repo/src/hooks/useTVL.ts" := content ]} [] in
  split nl content = [imp; "console.log(Rate)"; ""] ∧
  qualifying_import imp = true ∧
  qualifying_import "console.log(Rate)" = false ∧
  qualifying_import "" = false ∧
  ∃ w', migrate_file "src/hooks/useTVL.ts" "/repo" w = Some (true, w') ∧
    files w' !! "/repo/src/hooks/useTVL.ts" =
      Some (snippet +:+ newline +:+ imp +:+ newline +:+ "logger.info(Rate)" +:+ newline) ∧
    files w' !! "/repo/src/hooks/useTVL.ts" ≠
      Some (replace_console (join newline [imp; snippet; "console.log(Rate)"; ""])).
Proof.
  intros imp content snippet w. repeat (split; [by vm_compute |]).
  eexists. split.
  - apply (migrate_file_migrated _ _ w content); by vm_compute.
  - split; by vm_compute.
Qed.

(** What the code does with the lines of the text it read: they are kept in
    their order, each after the call-site substitutions, and the snippet
    comes right behind the last line that the loop accepts (it begins, once
    trimmed, with [import ] and does not contain [type]); when the loop
    accepts no line the file is the snippet, an empty line and the text,
    after the substitutions. *)
Theorem import_placement filepath base_dir w w' stored :
  files w !! path_join base_dir filepath = Some stored →
  migrate_file filepath base_dir w = Some (true, w') →
  let content := universal_newlines stored in
  let snippet := import_statement (get_scope filepath) in
  (∀ l1 imp l2,
     split nl content = l1 ++ imp :: l2 →
     is_import_line imp = true → no_import_line l2 = true →
     files w' !! path_join base_dir filepath =
       Some (join newline
               (map replace_console l1 ++
                replace_console imp :: replace_console snippet ::
                map replace_console l2))) ∧
  (no_import_line (split nl content) = true →
   files w' !! path_join base_dir filepath =
     Some (replace_console snippet +:+ newline +:+
           join newline (map replace_console (split nl content)))).
Proof.
  intros Hc H content snippet.
  destruct (migrated_content _ _ _ _ _ Hc H) as (_ & _ & ->). fold content. split.
  - intros l1 imp l2 Hs Hi Hl.
    rewrite (add_import_after _ _ _ _ _ Hs Hi Hl), replace_console_join.
    by rewrite map_app.
  - intros Hn. rewrite (add_import_top _ _ Hn), newline_app.
    rewrite replace_console_barrier by done.
    rewrite <- (join_split nl content) at 1. fold newline.
    by rewrite replace_console_join.
Qed.

Lemma import_placement_witness :
  let content := "import { a } from 'b'" +:+ newline +:+ "console.warn(a)" in
  let new := "import { a } from 'b'" +:+ newline +:+
             "import { logger } from '@/lib/logger'" +:+ newline +:+ newline +:+
             "logger.warn(a)" in
  let w := mkWorld {[ "/repo/src/hooks/useTVL.ts" := content ]} [] in
  let w' :=
    mkWorld
      (<[ "/repo/src/hooks/useTVL.ts" := new ]>
         (<[ "/repo/src/hooks/useTVL.ts.bak" := content ]> (files w)))
      [EvPrint "→ Migrating: src/hooks/useTVL.ts";
       EvWrite "/repo/src/hooks/useTVL.ts.bak" content;
       EvWrite "/repo/src/hooks/useTVL.ts" new;
       EvPrint "✓ Migrated: src/hooks/useTVL.ts"] in
  files w' !! "/repo/src/hooks/useTVL.ts" =
    Some (join newline
            [ "import { a } from 'b'";
              "import { logger } from '@/lib/logger'" +:+ newline;
              "logger.warn(a)" ]).
Proof.
  intros content new w w'.
  apply (proj1 (import_placement "src/hooks/useTVL.ts" "/repo" w w' content
                  ltac:(by vm_compute) ltac:(by vm_compute))
           [] "import { a } from 'b'" ["console.warn(a)"]);
    by vm_compute.
Defined.

(** ** Call sites (C6, C10) *)

(** Every manifest entry gets a snippet without calls. *)
Lemma manifest_snippets_plain : forallb plain_snippet FILES_TO_MIGRATE = true.
Proof. by vm_compute. Qed.

(** C6 as stated fails: with one [console.log(], one [console.info(] and no
    [logger.info(] in the file, the migrated file holds two [logger.info(],
    not one. *)
Lemma log_and_info_both_counted :
  let content := "console.log(1)" +:+ newline +:+ "console.info(2)" +:+ newline in
  let w := mkWorld {[ "/repo/src/hooks/useTVL.ts" := content ]} [] in
  occurrences "console.log(" content = 1 ∧
  occurrences "logger.info(" content = 0 ∧
  ∃ w' new, migrate_file "src/hooks/useTVL.ts" "/repo" w = Some (true, w') ∧
    files w' !! "/repo/src/hooks/useTVL.ts" = Some new ∧
    occurrences "console.log(" new = 0 ∧
    occurrences "logger.info(" new = 2.
Proof.
  intros content w. split; [by vm_compute |]. split; [by vm_compute |].
  eexists _, _. split.
  - apply (migrate_file_migrated _ _ w content); by vm_compute.
  - split; [apply lookup_insert_eq |]. split; by vm_compute.
Qed.

(** C6, amended.  In a migrated file none of the five [console.<level>(]
    occurs any more, and each [logger.<level>(] occurs as often as it did in
    the original plus once for every call mapped to it: [logger.info(] for
    [console.log(] and for [console.info(], [logger.error(], [logger.warn(]
    and [logger.debug(] for their namesakes.  The snippet is assumed to hold
    no such call, as it does for every manifest entry. *)
Theorem substitution_complete filepath base_dir w w' content :
  files w !! path_join base_dir filepath = Some content →
  migrate_file filepath base_dir w = Some (true, w') →
  plain_snippet filepath = true →
  ∃ new, files w' !! path_join base_dir filepath = Some new ∧
    occurrences "console.log(" new = 0 ∧
    occurrences "console.error(" new = 0 ∧
    occurrences "console.warn(" new = 0 ∧
    occurrences "console.info(" new = 0 ∧
    occurrences "console.debug(" new = 0 ∧
    occurrences "logger.info(" new =
      occurrences "logger.info(" content + occurrences "console.log(" content +
      occurrences "console.info(" content ∧
    occurrences "logger.error(" new =
      occurrences "logger.error(" content + occurrences "console.error(" content ∧
    occurrences "logger.warn(" new =
      occurrences "logger.warn(" content + occurrences "console.warn(" content ∧
    occurrences "logger.debug(" new =
      occurrences "logger.debug(" content + occurrences "console.debug(" content.
Proof.
  intros Hc H Hp. destruct (migrated_content _ _ _ _ _ Hc H) as (_ & _ & Hnew).
  eexists. split; [exact Hnew |].
  destruct (replace_console_counts (add_import filepath (universal_newlines content))).
  unfold plain_snippet in Hp. cbn [forallb] in Hp.
  repeat (apply andb_true_iff in Hp as [?%Nat.eqb_eq Hp]).
  rewrite !occurrences_add_import in * by done.
  rewrite !occurrences_newlines in * by done.
  repeat split; lia.
Qed.

Lemma substitution_complete_witness :
  let content := "console.log(1); console.log(2); logger.info(3)" in
  let new := "import { logger } from '@/lib/logger'" +:+ newline +:+ newline +:+
             "logger.info(1); logger.info(2); logger.info(3)" in
  let w := mkWorld {[ "/repo/src/hooks/useTVL.ts" := content ]} [] in
  let w' :=
    mkWorld
      (<[ "/repo/src/hooks/useTVL.ts" := new ]>
         (<[ "/repo/src/hooks/useTVL.ts.bak" := content ]> (files w)))
      [EvPrint "→ Migrating: src/hooks/useTVL.ts";
       EvWrite "/repo/src/hooks/useTVL.ts.bak" content;
       EvWrite "/repo/src/hooks/useTVL.ts" new;
       EvPrint "✓ Migrated: src/hooks/useTVL.ts"] in
  ∃ new', files w' !! path_join "/repo" "src/hooks/useTVL.ts" = Some new' ∧
    occurrences "console.log(" new' = 0 ∧
    occurrences "console.error(" new' = 0 ∧
    occurrences "console.warn(" new' = 0 ∧
    occurrences "console.info(" new' = 0 ∧
    occurrences "console.debug(" new' = 0 ∧
    occurrences "logger.info(" new' =
      occurrences "logger.info(" content + occurrences "console.log(" content +
      occurrences "console.info(" content ∧
    occurrences "logger.error(" new' =
      occurrences "logger.error(" content + occurrences "console.error(" content ∧
    occurrences "logger.warn(" new' =
      occurrences "logger.warn(" content + occurrences "console.warn(" content ∧
    occurrences "logger.debug(" new' =
      occurrences "logger.debug(" content + occurrences "console.debug(" content.
Proof.
  intros content new w w'.
  apply (substitution_complete "src/hooks/useTVL.ts" "/repo" w w' content);
    by vm_compute.
Defined.

(** A call in the middle of a text: what stands in front of its parenthesis
    is rewritten, and so are, each on its own, the text in front of the call
    and the text behind it. *)
Lemma replace_console_at (call target pre post : string) :
  contains "(" call = false →
  (∀ u, rewrite_call (u +:+ call) = u +:+ target) →
  replace_console (pre +:+ call +:+ String "(" post) =
    replace_console pre +:+ target +:+ String "(" (replace_console post).
Proof.
  intros Hcall Hrule. induction pre as [t Ht | t s Ht IH] using paren_ind.
  - rewrite (replace_console_plain t) by done.
    rewrite <- (str_app_assoc t call).
    rewrite replace_console_call by (by rewrite contains_char_app, Ht, Hcall).
    by rewrite Hrule, str_app_assoc.
  - rewrite (str_app_assoc t), (str_app_cons "(" s).
    rewrite !replace_console_call by done.
    by rewrite IH, (str_app_assoc (rewrite_call t)), (str_app_cons "(").
Qed.

(** C10.  Wherever a call site stands in a text, [console.log(] there and
    [console.info(] there are both rewritten to [logger.info(], the text
    around them being rewritten in the same way: two different texts with
    one result.  So two files that differ in one call site only are migrated
    to the same content, which holds [logger.info(] at the call site, and
    no function of the migrated content gives back the content of both. *)
Theorem substitution_not_injective :
  (∀ pre post,
     pre +:+ "console.log(" +:+ post ≠ pre +:+ "console.info(" +:+ post ∧
     replace_console (pre +:+ "console.log(" +:+ post) =
       replace_console pre +:+ "logger.info(" +:+ replace_console post ∧
     replace_console (pre +:+ "console.info(" +:+ post) =
       replace_console pre +:+ "logger.info(" +:+ replace_console post) ∧
  let c1 := "const x = 1" +:+ newline +:+ "console.log(x)" +:+ newline in
  let c2 := "const x = 1" +:+ newline +:+ "console.info(x)" +:+ newline in
  let new := "import { logger } from '@/lib/logger'" +:+ newline +:+ newline +:+
             "const x = 1" +:+ newline +:+ "logger.info(x)" +:+ newline in
  let w1 := mkWorld {[ "/repo/src/hooks/useTVL.ts" := c1 ]} [] in
  let w2 := mkWorld {[ "/repo/src/hooks/useTVL.ts" := c2 ]} [] in
  c1 ≠ c2 ∧
  (∃ w1' w2',
     migrate_file "src/hooks/useTVL.ts" "/repo" w1 = Some (true, w1') ∧
     migrate_file "src/hooks/useTVL.ts" "/repo" w2 = Some (true, w2') ∧
     files w1' !! "/repo/src/hooks/useTVL.ts" = Some new ∧
     files w2' !! "/repo/src/hooks/useTVL.ts" = Some new) ∧
  (∀ recover : string → string, recover new ≠ c1 ∨ recover new ≠ c2).
Proof.
  split.
  - intros pre post. split; [| split].
    + intros E. by apply (inj (String.app pre)) in E.
    + change ("console.log(" +:+ post) with ("console.log" +:+ String "(" post).
      change ("logger.info(" +:+ replace_console post)
        with ("logger.info" +:+ String "(" (replace_console post)).
      apply replace_console_at; [done | apply rewrite_call_log].
    + change ("console.info(" +:+ post) with ("console.info" +:+ String "(" post).
      change ("logger.info(" +:+ replace_console post)
        with ("logger.info" +:+ String "(" (replace_console post)).
      apply replace_console_at; [done | apply rewrite_call_info].
  - intros c1 c2 new w1 w2.
    assert (c1 ≠ c2) as Hne by by vm_compute.
    split; [done |]. split.
    + eexists _, _. split; [| split; [| split]].
      * apply (migrate_file_migrated _ _ w1 c1); by vm_compute.
      * apply (migrate_file_migrated _ _ w2 c2); by vm_compute.
      * by vm_compute.
      * by vm_compute.
    + intros recover. destruct (decide (recover new = c1)) as [E | E]; [| by left].
      right. by rewrite E.
Qed.

(** ** Running twice (C3) *)

Lemma import_statement_logger (scope : option string) :
  ∃ a b, import_statement scope = a +:+ "'@/lib/logger'" +:+ b.
Proof.
  destruct scope as [[|c sc]|]; cbn [import_statement].
  - by exists "import { logger } from ", newline.
  - by exists "import { createScopedLogger } from ",
      (newline +:+ newline +:+ "const logger = createScopedLogger('" +:+
       String c sc +:+ "')" +:+ newline).
  - by exists "import { logger } from ", newline.
Qed.

Lemma add_import_logger (filepath content : string) :
  ∃ a b, add_import filepath content = a +:+ "'@/lib/logger'" +:+ b.
Proof.
  destruct (import_statement_logger (get_scope filepath)) as (a1 & b1 & E).
  unfold add_import. rewrite E.
  destruct (0 <=? last_import_from _ 0 (-1))%Z.
  - unfold list_insert_at.
    destruct (join_middle newline
                (take (Z.to_nat (last_import_from
                         (split (ascii_of_nat 10) content) 0 (-1) + 1))
                   (split (ascii_of_nat 10) content))
                (a1 +:+ "'@/lib/logger'" +:+ b1)
                (drop (Z.to_nat (last_import_from
                         (split (ascii_of_nat 10) content) 0 (-1) + 1))
                   (split (ascii_of_nat 10) content))) as (a0 & b0 & ->).
    exists (a0 +:+ a1), (b1 +:+ b0). by rewrite !str_app_assoc.
  - exists a1, (b1 +:+ newline +:+ content). by rewrite !str_app_assoc.
Qed.

Lemma replace_console_logger (a b : string) :
  contains "'@/lib/logger'" (replace_console (a +:+ "'@/lib/logger'" +:+ b)) = true.
Proof.
  change ("'@/lib/logger'" +:+ b) with (String "'" ("@/lib/logger" +:+ String "'" b)).
  rewrite !replace_console_barrier by done.
  replace (replace_console "@/lib/logger") with "@/lib/logger" by (by vm_compute).
  change (String "'" ("@/lib/logger" +:+ String "'" (replace_console b)))
    with ("'@/lib/logger'" +:+ replace_console b).
  apply contains_intro.
Qed.

(** A migrated file refers to the logger module. *)
Lemma migrated_is_logged (filepath content : string) :
  already_migrated (replace_console (add_import filepath content)) = true.
Proof.
  destruct (add_import_logger filepath content) as (a & b & ->).
  unfold already_migrated. by rewrite replace_console_logger.
Qed.

Section Rerun.
Variables (base_dir : string) (manifest : list string).

(** No backup is written over the file of a manifest entry. *)
Hypothesis no_backup_entry : ∀ p q,
  p ∈ manifest → q ∈ manifest →
  path_join base_dir p +:+ ".bak" ≠ path_join base_dir q.

Lemma settled_skip p w :
  settled base_dir (files w) p →
  ∃ line, migrate_file p base_dir w = Some (false, say line w).
Proof.
  unfold settled. intros H.
  destruct (migrate_file_cases p base_dir w)
    as [[_ E] | (c & Hc & [[_ E] | [(_ & _ & E) | (Ha & Hh & E)]])]; eauto.
  rewrite Hc in H. destruct H as [H | H]; congruence.
Qed.

Lemma step_settled p q w ok w' :
  p ∈ manifest → q ∈ manifest →
  migrate_file p base_dir w = Some (ok, w') →
  settled base_dir (files w) q → settled base_dir (files w') q.
Proof.
  intros Hp Hq H Hs.
  destruct (migrate_file_cases p base_dir w)
    as [[_ E] | (c & Hc & [[_ E] | [(_ & _ & E) | (Ha & Hh & E)]])];
    rewrite E in H; injection H as <- <-; try done.
  unfold settled in *. cbn [files].
  destruct (decide (path_join base_dir p = path_join base_dir q)) as [Epq | Epq].
  - rewrite <- Epq, lookup_insert_eq. left. apply migrated_is_logged.
  - rewrite lookup_insert_ne by done.
    by rewrite lookup_insert_ne by by apply no_backup_entry.
Qed.

Lemma step_self p w ok w' :
  migrate_file p base_dir w = Some (ok, w') → settled base_dir (files w') p.
Proof.
  intros H. unfold settled.
  destruct (migrate_file_cases p base_dir w)
    as [[Hc E] | (c & Hc & [[Ha E] | [(Ha & Hh & E) | (Ha & Hh & E)]])];
    rewrite E in H; injection H as <- <-; cbn [say files].
  - by rewrite Hc.
  - rewrite Hc. by left.
  - rewrite Hc. by right.
  - rewrite lookup_insert_eq. left. apply migrated_is_logged.
Qed.

Lemma step_logged p q w ok w' :
  p ∈ manifest → q ∈ manifest →
  migrate_file p base_dir w = Some (ok, w') →
  logged base_dir (files w) q → logged base_dir (files w') q.
Proof.
  intros Hp Hq H (cq & Hcq & Hl).
  destruct (migrate_file_cases p base_dir w)
    as [[_ E] | (c & Hc & [[_ E] | [(_ & _ & E) | (Ha & Hh & E)]])];
    rewrite E in H; injection H as <- <-; try by exists cq.
  unfold logged. cbn [files].
  destruct (decide (path_join base_dir p = path_join base_dir q)) as [Epq | Epq].
  - rewrite <- Epq in Hcq. congruence.
  - exists cq. rewrite lookup_insert_ne by done.
    by rewrite lookup_insert_ne by by apply no_backup_entry.
Qed.

Lemma step_true_logged p w w' :
  migrate_file p base_dir w = Some (true, w') → logged base_dir (files w') p.
Proof.
  intros H.
  destruct (migrate_file_cases p base_dir w)
    as [[_ E] | (c & Hc & [[_ E] | [(_ & _ & E) | (Ha & Hh & E)]])];
    rewrite E in H; try discriminate. injection H as <-.
  eexists. cbn [files]. split; [apply lookup_insert_eq | apply migrated_is_logged].
Qed.

Lemma loop_settles l c w c' w' :
  l ⊆ manifest →
  main_loop l base_dir c w = Some (c', w') →
  ∀ q, q ∈ manifest → settled base_dir (files w) q ∨ q ∈ l →
       settled base_dir (files w') q.
Proof.
  revert c w. induction l as [|p l IH]; intros c w Hl H q Hq Hs.
  - injection H as <- <-. destruct Hs as [Hs | Hs]; [done | by apply elem_of_nil in Hs].
  - destruct (migrate_file_total p base_dir w) as (ok & w1 & E).
    rewrite (main_loop_cons _ _ _ _ _ _ _ E) in H.
    assert (p ∈ manifest) as Hp by (apply Hl; left).
    assert (l ⊆ manifest) as Hl' by (intros x Hx; apply Hl; by right).
    apply (IH _ _ Hl' H q Hq).
    destruct Hs as [Hs | [-> | Hs]%elem_of_cons].
    + left. by apply (step_settled p q w ok w1).
    + left. by apply (step_self p w ok w1).
    + by right.
Qed.

Lemma loop_logged l c w c' w' q :
  l ⊆ manifest → q ∈ manifest →
  main_loop l base_dir c w = Some (c', w') →
  logged base_dir (files w) q → logged base_dir (files w') q.
Proof.
  revert c w. induction l as [|p l IH]; intros c w Hl Hq H Hs.
  - by injection H as <- <-.
  - destruct (migrate_file_total p base_dir w) as (ok & w1 & E).
    rewrite (main_loop_cons _ _ _ _ _ _ _ E) in H.
    assert (p ∈ manifest) as Hp by (apply Hl; left).
    assert (l ⊆ manifest) as Hl' by (intros x Hx; apply Hl; by right).
    apply (IH _ _ Hl' Hq H).
    by apply (step_logged p q w ok w1).
Qed.

(** Over settled entries the loop only prints and skips. *)
Lemma loop_idle l c w :
  (∀ q, q ∈ l → settled base_dir (files w) q) →
  ∃ w', main_loop l base_dir c w =
          Some (mkCounters (total c + length l) (migrated c) (skipped c + length l), w') ∧
        files w' = files w.
Proof.
  revert c w. induction l as [|p l IH]; intros c w Hs.
  - exists w. destruct c. cbn [main_loop length total migrated skipped].
    by rewrite !Nat.add_0_r.
  - destruct (settled_skip p w) as [line E]; [apply Hs; left |].
    rewrite (main_loop_cons _ _ _ _ _ _ _ E).
    destruct (IH (count_one false c) (say line w)) as (w' & -> & Hf).
    { intros q Hq. cbn [say files]. apply Hs. by right. }
    exists w'. split; [| done]. cbn [count_one total migrated skipped length].
    do 2 f_equal. f_equal; lia.
Qed.
End Rerun.

(** No manifest entry names the backup of another one. *)
Lemma manifest_no_backup_entry base_dir p q :
  p ∈ FILES_TO_MIGRATE → q ∈ FILES_TO_MIGRATE →
  path_join base_dir p +:+ ".bak" ≠ path_join base_dir q.
Proof.
  intros Hp Hq E. unfold path_join in E. rewrite !str_app_assoc in E.
  apply (inj (String.app base_dir)), (inj (String.app "/")) in E.
  assert (forallb (λ p, forallb (λ q, negb (String.eqb (p +:+ ".bak") q))
                     FILES_TO_MIGRATE) FILES_TO_MIGRATE = true) as H
    by (by vm_compute).
  rewrite forallb_forall in H. apply list_elem_of_In in Hp, Hq.
  specialize (H p Hp). rewrite forallb_forall in H. specialize (H q Hq).
  apply negb_true_iff, String.eqb_neq in H. done.
Qed.

Lemma turn_inv base_dir w i wa :
  turn base_dir w i = Some wa →
  ∃ c, main_loop (take i FILES_TO_MIGRATE) base_dir no_counters (banner w) =
         Some (c, wa).
Proof.
  unfold turn. destruct (main_loop _ _ _ _) as [[c w']|]; [| done].
  intros [= <-]. by exists c.
Qed.

(** C3.  Two runs of [main] in a row both return; the second one leaves
    every file as the first one left it and migrates nothing; and an entry
    that the first run migrated is, at its turn in the second run, reported as
    already migrated and skipped. *)
Theorem rerun_is_idempotent base_dir w :
  ∃ c1 w1 c2 w2,
    main base_dir w = Some (c1, w1) ∧
    main base_dir w1 = Some (c2, w2) ∧
    files w2 = files w1 ∧
    migrated c2 = 0 ∧
    ∀ i p wa wb,
      FILES_TO_MIGRATE !! i = Some p →
      turn base_dir w i = Some wa →
      migrate_file p base_dir wa = Some (true, wb) →
      ∃ wc, turn base_dir w1 i = Some wc ∧
            files wc = files w1 ∧
            migrate_file p base_dir wc =
              Some (false, say ("⊙ Already migrated: " +:+ p) wc).
Proof.
  pose proof (manifest_no_backup_entry base_dir) as NB.
  destruct (main_loop_counters FILES_TO_MIGRATE base_dir no_counters (banner w))
    as (c1 & wl & E1 & _ & _).
  destruct (main_unfold _ _ _ _ E1) as (w1 & Hm1 & Hf1).
  assert (∀ q, q ∈ FILES_TO_MIGRATE → settled base_dir (files (banner w1)) q) as Hs.
  { intros q Hq. cbn [banner say files]. rewrite Hf1.
    apply (loop_settles base_dir FILES_TO_MIGRATE NB _ _ _ _ _ (reflexivity _) E1 q Hq).
    by right. }
  destruct (loop_idle base_dir FILES_TO_MIGRATE no_counters (banner w1) Hs)
    as (wl2 & E2 & Hf2).
  destruct (main_unfold _ _ _ _ E2) as (w2 & Hm2 & Hf3).
  eexists c1, w1, _, w2. split; [done |]. split; [exact Hm2 |].
  split; [by rewrite Hf3, Hf2 |]. split; [done |].
  intros i p wa wb Hi Ha Hb.
  apply turn_inv in Ha as [ca Ha].
  assert (p ∈ FILES_TO_MIGRATE) as Hp by (by eapply list_elem_of_lookup_2).
  assert (logged base_dir (files w1) p) as Hl.
  { rewrite Hf1. rewrite <- (take_drop_middle _ _ _ Hi) in E1.
    rewrite main_loop_app, Ha in E1.
    rewrite (main_loop_cons _ _ _ _ _ _ _ Hb) in E1.
    eapply (loop_logged base_dir FILES_TO_MIGRATE NB); [| done | exact E1 |].
    - apply subseteq_drop.
    - by eapply step_true_logged. }
  destruct (loop_idle base_dir (take i FILES_TO_MIGRATE) no_counters (banner w1))
    as (wc & Ec & Hfc).
  { intros q Hq. apply Hs. by apply (subseteq_take i). }
  exists wc. unfold turn. rewrite Ec. cbn [fmap option_fmap option_map snd].
  split; [done |]. split; [by rewrite Hfc |].
  destruct Hl as (c & Hc & Hlog).
  eapply migrate_file_already; [| exact Hlog]. by rewrite Hfc.
Qed.

Lemma rerun_is_idempotent_witness :
  let w := mkWorld {[ "/repo/src/config/serverEnv.ts" := "console.warn('unset')" ]} [] in
  ∃ c1 w1 c2 w2,
    main "/repo" w = Some (c1, w1) ∧
    main "/repo" w1 = Some (c2, w2) ∧
    files w2 = files w1 ∧
    migrated c2 = 0 ∧
    ∀ i p wa wb,
      FILES_TO_MIGRATE !! i = Some p →
      turn "/repo" w i = Some wa →
      migrate_file p "/repo" wa = Some (true, wb) →
      ∃ wc, turn "/repo" w1 i = Some wc ∧
            files wc = files w1 ∧
            migrate_file p "/repo" wc =
              Some (false, say ("⊙ Already migrated: " +:+ p) wc).
Proof. intros w. exact (rerun_is_idempotent "/repo" w). Defined.

(** The manifest matters: were the backup of one entry itself an entry that
    comes earlier, the second run would migrate that backup. *)
Remark rerun_over_a_backup_entry :
  let manifest := ["src/a.ts.bak"; "src/a.ts"] in
  let w := mkWorld {[ "/repo/src/a.ts" := "console.log(1)" ]} [] in
  ∃ c1 w1 c2 w2,
    main_loop manifest "/repo" no_counters w = Some (c1, w1) ∧
    main_loop manifest "/repo" no_counters w1 = Some (c2, w2) ∧
    migrated c2 = 1 ∧
    files w2 !! "/repo/src/a.ts.bak" ≠ files w1 !! "/repo/src/a.ts.bak".
Proof.
  intros manifest w.
  destruct (main_loop manifest "/repo" no_counters w) as [[c1 w1]|] eqn:E1;
    [| by vm_compute in E1].
  destruct (main_loop manifest "/repo" no_counters w1) as [[c2 w2]|] eqn:E2.
  - exists c1, w1, c2, w2. vm_compute in E1. injection E1 as <- <-.
    vm_compute in E2. injection E2 as <- <-. repeat split; by vm_compute.
  - vm_compute in E1. injection E1 as <- <-. by vm_compute in E2.
Qed.

(** * Further properties of the code *)

(** ** One entry *)

(** X2.  Whatever [migrate_file] does, every path other than the file of the
    entry and its backup keeps what it had. *)
Theorem migrate_file_frame filepath base_dir w ok w' q :
  migrate_file filepath base_dir w = Some (ok, w') →
  q ≠ path_join base_dir filepath →
  q ≠ path_join base_dir filepath +:+ ".bak" →
  files w' !! q = files w !! q.
Proof.
  intros H H1 H2.
  destruct (migrate_file_cases filepath base_dir w)
    as [[_ E] | (c & _ & [[_ E] | [(_ & _ & E) | (_ & _ & E)]])];
    rewrite E in H; injection H as <- <-; try done.
  cbn [files]. by rewrite !lookup_insert_ne.
Qed.

Lemma migrate_file_frame_witness :
  let w := mkWorld {[ "/repo/src/hooks/useTVL.ts" := "console.log(1)";
                      "/repo/README.md" := "console.log(2)" ]} [] in
  let new := "import { logger } from '@/lib/logger'" +:+ newline +:+ newline +:+
             "logger.info(1)" in
  let w' :=
    mkWorld
      (<[ "/repo/src/hooks/useTVL.ts" := new ]>
         (<[ "/repo/src/hooks/useTVL.ts.bak" := "console.log(1)" ]> (files w)))
      [EvPrint "→ Migrating: src/hooks/useTVL.ts";
       EvWrite "/repo/src/hooks/useTVL.ts.bak" "console.log(1)";
       EvWrite "/repo/src/hooks/useTVL.ts" new;
       EvPrint "✓ Migrated: src/hooks/useTVL.ts"] in
  files w' !! "/repo/README.md" = files w !! "/repo/README.md".
Proof.
  intros w new w'.
  apply (migrate_file_frame "src/hooks/useTVL.ts" "/repo" w true w'
           "/repo/README.md"); by vm_compute.
Defined.

(** X3.  Right after [migrate_file] has migrated an entry, a second call for
    the same entry reports it as already migrated and changes no file. *)
Theorem migrate_file_twice filepath base_dir w w' :
  migrate_file filepath base_dir w = Some (true, w') →
  migrate_file filepath base_dir w' =
    Some (false, say ("⊙ Already migrated: " +:+ filepath) w').
Proof.
  intros H.
  destruct (migrate_file_cases filepath base_dir w)
    as [[_ E] | (c & _ & [[_ E] | [(_ & _ & E) | (_ & _ & E)]])];
    rewrite E in H; try discriminate. injection H as <-.
  eapply migrate_file_already; [apply lookup_insert_eq | apply migrated_is_logged].
Qed.

Lemma migrate_file_twice_witness :
  let content := "console.debug(0)" in
  let new := "import { logger } from '@/lib/logger'" +:+ newline +:+ newline +:+
             "logger.debug(0)" in
  let w := mkWorld {[ "/repo/src/hooks/useTVL.ts" := content ]} [] in
  let w' :=
    mkWorld
      (<[ "/repo/src/hooks/useTVL.ts" := new ]>
         (<[ "/repo/src/hooks/useTVL.ts.bak" := content ]> (files w)))
      [EvPrint "→ Migrating: src/hooks/useTVL.ts";
       EvWrite "/repo/src/hooks/useTVL.ts.bak" content;
       EvWrite "/repo/src/hooks/useTVL.ts" new;
       EvPrint "✓ Migrated: src/hooks/useTVL.ts"] in
  migrate_file "src/hooks/useTVL.ts" "/repo" w' =
    Some (false, say "⊙ Already migrated: src/hooks/useTVL.ts" w').
Proof.
  intros content new w w'.
  apply (migrate_file_twice "src/hooks/useTVL.ts" "/repo" w w'). by vm_compute.
Defined.

(** ** The text *)

Lemma contains_prefix (a b s : string) :
  contains (a +:+ b) s = true → contains a s = true.
Proof.
  intros (x & y & ->)%contains_inv. rewrite str_app_assoc. apply contains_intro.
Qed.

Lemma occurrences_prefix_absent (a b s : string) :
  contains a s = false → occurrences (a +:+ b) s = 0.
Proof.
  intros H. apply occurrences_absent.
  destruct (contains (a +:+ b) s) eqn:E; [| done].
  apply contains_prefix in E. congruence.
Qed.

Lemma has_console_call_false (s : string) :
  has_console_call s = false ↔
  occurrences "console.log(" s = 0 ∧ occurrences "console.error(" s = 0 ∧
  occurrences "console.warn(" s = 0 ∧ occurrences "console.info(" s = 0 ∧
  occurrences "console.debug(" s = 0.
Proof.
  unfold has_console_call, levels. cbn [existsb].
  change ("console." +:+ "log" +:+ "(") with "console.log(".
  change ("console." +:+ "error" +:+ "(") with "console.error(".
  change ("console." +:+ "warn" +:+ "(") with "console.warn(".
  change ("console." +:+ "info" +:+ "(") with "console.info(".
  change ("console." +:+ "debug" +:+ "(") with "console.debug(".
  rewrite orb_false_r, !orb_false_iff, !negb_false_iff, !Nat.eqb_eq. tauto.
Qed.

(** X4.  The applicability test misses no call: a content that fails it, and
    is reported as having no console statements, holds no
    [console.<level>(]. *)
Theorem skipped_content_has_no_call (content : string) :
  has_console content = false → has_console_call content = false.
Proof.
  unfold has_console. cbn [existsb].
  rewrite orb_false_r, !orb_false_iff. intros (H1 & H2 & H3 & H4 & H5).
  apply has_console_call_false.
  change "console.log(" with (("console." +:+ "log") +:+ "(").
  change "console.error(" with (("console." +:+ "error") +:+ "(").
  change "console.warn(" with (("console." +:+ "warn") +:+ "(").
  change "console.info(" with (("console." +:+ "info") +:+ "(").
  change "console.debug(" with (("console." +:+ "debug") +:+ "(").
  by rewrite !occurrences_prefix_absent.
Qed.

Lemma skipped_content_has_no_call_witness :
  has_console_call "export const rate = 1" = false.
Proof. apply skipped_content_has_no_call. by vm_compute. Defined.

Lemma rewrite_call_idempotent (t : string) :
  rewrite_call (rewrite_call t) = rewrite_call t.
Proof. destruct (rewrite_call_counts t). by apply rewrite_call_other. Qed.

(** X5.  The five substitutions are idempotent: applied to their own result
    they change nothing. *)
Theorem replace_console_idempotent (s : string) :
  replace_console (replace_console s) = replace_console s.
Proof.
  induction s as [t Ht | t s Ht IH] using paren_ind.
  - by rewrite !(replace_console_plain t Ht).
  - rewrite replace_console_call by done.
    rewrite replace_console_call by by apply rewrite_call_plain.
    by rewrite rewrite_call_idempotent, IH.
Qed.

(** X6.  A text without any [console.<level>(] is left as it is by the five
    substitutions. *)
Theorem replace_console_without_calls (s : string) :
  has_console_call s = false → replace_console s = s.
Proof.
  rewrite has_console_call_false.
  induction s as [t Ht | t s Ht IH] using paren_ind; intros H.
  - by apply replace_console_plain.
  - rewrite replace_console_call by done.
    split_patterns. rewrite !occurrences_call in H by done.
    destruct H as (H1 & H2 & H3 & H4 & H5).
    rewrite rewrite_call_other, IH; [done | | | | | |].
    + repeat split; lia.
    + by destruct (endswith t "console.log").
    + by destruct (endswith t "console.error").
    + by destruct (endswith t "console.warn").
    + by destruct (endswith t "console.info").
    + by destruct (endswith t "console.debug").
Qed.

Lemma replace_console_without_calls_witness :
  replace_console "const report = console.error" = "const report = console.error".
Proof. apply replace_console_without_calls. by vm_compute. Defined.

(** X7.  The five substitutions work on each line by itself: the result is
    the lines of the text, each one substituted, joined again; its lines are
    the substituted lines of the text, one for one, so the number of lines
    does not change. *)
Theorem replace_console_linewise (s : string) :
  replace_console s = join newline (map replace_console (split nl s)) ∧
  split nl (replace_console s) = map replace_console (split nl s) ∧
  length (split nl (replace_console s)) = length (split nl s).
Proof.
  assert (replace_console s = join newline (map replace_console (split nl s))) as E.
  { rewrite <- replace_console_join.
    change newline with (String nl ""). by rewrite join_split. }
  assert (split nl (replace_console s) = map replace_console (split nl s)) as Hs.
  { rewrite E at 1. change newline with (String nl ""). apply split_join.
    - pose proof (split_not_nil nl s) as Hn. by destruct (split nl s).
    - apply Forall_map. eapply Forall_impl; [apply split_sep_free |].
      intros x Hx. by apply replace_console_no_newline. }
  split; [done |]. split; [done |]. by rewrite Hs, length_map.
Qed.

(** ** Scope labels *)

(** X8.  A scope label is never empty: the test [if scope] in [migrate_file]
    fails for [None] only, and every label is injected as the argument of
    [createScopedLogger]. *)
Theorem scope_is_injected (filepath scope : string) :
  get_scope filepath = Some scope →
  scope ≠ "" ∧
  import_statement (get_scope filepath) =
    "import { createScopedLogger } from '@/lib/logger'" +:+ newline +:+ newline +:+
    "const logger = createScopedLogger('" +:+ scope +:+ "')" +:+ newline.
Proof.
  intros H. rewrite H. assert (scope ≠ "") as Hne.
  { unfold get_scope in H.
    repeat match type of H with
           | (if ?b then _ else _) = _ => destruct b
           | match ?o with Some _ => _ | None => _ end = _ => destruct o
           end; try discriminate; by injection H as <-. }
  split; [done |]. by destruct scope.
Qed.

Lemma scope_is_injected_witness :
  "config:serverEnv" ≠ "" ∧
  import_statement (get_scope "src/config/serverEnv.ts") =
    "import { createScopedLogger } from '@/lib/logger'" +:+ newline +:+ newline +:+
    "const logger = createScopedLogger('" +:+ "config:serverEnv" +:+ "')" +:+ newline.
Proof. apply (scope_is_injected "src/config/serverEnv.ts"). by vm_compute. Defined.

Lemma path_name_no_slash (p : string) : contains "/" (path_name p) = false.
Proof.
  unfold path_name, path_parts.
  destruct (last _) as [x|] eqn:E; [| done]. cbn [default].
  apply last_Some_elem_of, list_elem_of_In, filter_In in E as [E _].
  pose proof (split_sep_free "/" p) as H. rewrite Forall_forall in H.
  by apply H, list_elem_of_In.
Qed.

Lemma substring_char_free (c : ascii) (n : nat) (s : string) :
  contains (String c "") s = false →
  contains (String c "") (String.substring 0 n s) = false.
Proof.
  revert n. induction s as [|x s IH]; intros n H; [by destruct n |].
  destruct n as [|n]; [done |]. cbn [String.substring].
  rewrite contains_char_cons in *. apply orb_false_elim in H as [-> H].
  by apply IH.
Qed.

Lemma stem_no_slash (p : string) : contains "/" (stem p) = false.
Proof.
  unfold stem. destruct (_ && _).
  - apply substring_char_free, path_name_no_slash.
  - apply path_name_no_slash.
Qed.

Lemma str_replace_char_gone (c d : ascii) (s : string) :
  Ascii.eqb c d = false →
  contains (String c "") (str_replace (String c "") (String d "") s) = false.
Proof.
  intros Hcd. unfold str_replace. fold (re_sub (String c "") (String d "") s).
  induction s as [|x s IH]; [done |].
  destruct (Ascii.eqb_spec c x) as [<- | Hx].
  - change (String c s) with (String c "" +:+ s). rewrite re_sub_match by done.
    change (String d "" +:+ re_sub (String c "") (String d "") s)
      with (String d (re_sub (String c "") (String d "") s)).
    by rewrite contains_char_cons, Hcd, IH.
  - apply Ascii.eqb_neq in Hx. rewrite re_sub_skip.
    + by rewrite contains_char_cons, Hx, IH.
    + cbn [startswith]. by rewrite Hx.
Qed.

(** X9.  No scope label contains a slash. *)
Theorem scope_has_no_slash (filepath scope : string) :
  get_scope filepath = Some scope → contains "/" scope = false.
Proof.
  unfold get_scope. intros H.
  repeat match type of H with
         | (if ?b then _ else _) = _ => destruct b
         | match ?o with Some _ => _ | None => _ end = _ => destruct o
         end; try discriminate; injection H as <-;
    rewrite ?contains_char_app, ?stem_no_slash, ?str_replace_char_gone; done.
Qed.

Lemma scope_has_no_slash_witness :
  contains "/" "api:portfolio:update-prices" = false.
Proof.
  apply (scope_has_no_slash "src/app/api/portfolio/update-prices/route.ts").
  by vm_compute.
Defined.

Lemma rfind_from_absent (c : ascii) (s : string) (i last : Z) :
  contains (String c "") s = false → rfind_from c s i last = last.
Proof.
  revert i. induction s as [|x s IH]; intros i; [done |].
  rewrite contains_char_cons. intros [Hx Hs]%orb_false_elim.
  cbn [rfind_from]. rewrite Ascii.eqb_sym, Hx. by apply IH.
Qed.

Lemma rfind_from_app (c : ascii) (a b : string) (i last : Z) :
  contains (String c "") b = false →
  rfind_from c (a +:+ String c b) i last = (i + Z.of_nat (String.length a))%Z.
Proof.
  intros Hb. revert i last. induction a as [|x a IH]; intros i last.
  - rewrite str_app_nil_l. cbn [rfind_from String.length].
    rewrite Ascii.eqb_refl, rfind_from_absent by done. lia.
  - rewrite str_app_cons. cbn [rfind_from String.length]. rewrite IH. lia.
Qed.

Lemma substring_app (a b : string) :
  String.substring 0 (String.length a) (a +:+ b) = a.
Proof.
  induction a as [|x a IH]; [by destruct b |].
  rewrite str_app_cons. cbn [String.length String.substring]. by rewrite IH.
Qed.

(** The stem of [d/name.ext] is [name]. *)
Lemma stem_of_file (d name ext : string) :
  component name = true → component ext = true → contains "." ext = false →
  stem (d +:+ "/" +:+ name +:+ "." +:+ ext) = name.
Proof.
  intros [Hn1 Hn2%negb_true_iff]%andb_true_iff
         [He1 He2%negb_true_iff]%andb_true_iff Hdot.
  set (f := name +:+ "." +:+ ext).
  assert (contains "/" f = false) as Hf
    by (unfold f; by rewrite !contains_char_app, Hn2, He2).
  assert (path_name (d +:+ "/" +:+ f) = f) as Hname.
  { unfold path_name, path_parts.
    change ("/" +:+ f) with (String "/" f).
    rewrite split_app_sep, (split_one "/" f Hf), List.filter_app.
    replace (List.filter _ [f]) with [f]; [by rewrite last_snoc |].
    assert (2 ≤ String.length f) as Hlen.
    { unfold f. rewrite !str_length_app. destruct name; [done | simpl; lia]. }
    cbn [List.filter].
    replace (String.eqb f "") with false
      by (symmetry; apply String.eqb_neq; intros E; rewrite E in Hlen;
          simpl in Hlen; lia).
    replace (String.eqb f ".") with false
      by (symmetry; apply String.eqb_neq; intros E; rewrite E in Hlen;
          simpl in Hlen; lia).
    done. }
  assert (rfind "." f = Z.of_nat (String.length name)) as Hr.
  { unfold rfind, f. change ("." +:+ ext) with (String "." ext).
    rewrite rfind_from_app by done. lia. }
  assert (String.length f = String.length name + S (String.length ext)) as Hl.
  { unfold f. by rewrite !str_length_app. }
  unfold stem. rewrite Hname, Hr, Hl.
  destruct name as [|x name]; [done |]. destruct ext as [|y ext]; [done |].
  replace ((0 <? _) && _)%Z with true
    by (symmetry; apply andb_true_iff; split; apply Z.ltb_lt;
        cbn [String.length]; lia).
  rewrite Nat2Z.id. apply substring_app.
Qed.

(** X10.  Outside the API rule, the label of a file [d/name.ext] is one of six
    prefixes followed by [name], the file name without its last extension. *)
Theorem scope_of_file (d name ext scope : string) :
  let filepath := d +:+ "/" +:+ name +:+ "." +:+ ext in
  component name = true → component ext = true → contains "." ext = false →
  contains "api/" filepath = false →
  get_scope filepath = Some scope →
  ∃ kind, kind ∈ scope_kinds ∧ scope = kind +:+ name.
Proof.
  intros filepath Hn He Hd Hapi H.
  pose proof (stem_of_file d name ext Hn He Hd) as Hs. fold filepath in Hs.
  unfold get_scope in H. rewrite Hapi, Hs in H. unfold scope_kinds.
  repeat match type of H with
         | (if ?b then _ else _) = _ => destruct b
         end; try discriminate; injection H as <-;
    eexists; (split; [| reflexivity]); set_solver.
Qed.

Lemma scope_of_file_witness :
  ∃ kind, kind ∈ scope_kinds ∧ "service:token.services" = kind +:+ "token.services".
Proof.
  apply (scope_of_file "src/services" "token.services" "ts"); by vm_compute.
Defined.

(** ** The injection *)

Lemma join_insert_length (n : nat) (x : string) (l : list string) :
  l ≠ [] →
  String.length (join newline (list_insert_at n x l)) =
    String.length (join newline l) + String.length x + 1.
Proof.
  intros Hl. unfold list_insert_at. rewrite <- (take_drop n l) at 3.
  destruct (drop n l) as [|y l2] eqn:E2.
  - rewrite app_nil_r. rewrite join_app.
    destruct (take n l) as [|z l1] eqn:E1.
    + rewrite <- (take_drop n l), E1, E2 in Hl. done.
    + rewrite !str_length_app. cbn [join String.length newline]. lia.
  - rewrite !join_app. destruct (take n l) as [|z l1];
      rewrite ?join_cons, !str_length_app; cbn [String.length newline]; lia.
Qed.

(** X11.  The injection only adds: its result is the snippet put in front of
    the content with a newline, or put behind the last import line, and in
    both cases it is longer than the content by the snippet and one newline. *)
Theorem add_import_adds (filepath content : string) :
  let snippet := import_statement (get_scope filepath) in
  ((no_import_line (split nl content) = true ∧
    add_import filepath content = snippet +:+ newline +:+ content) ∨
   (∃ l1 imp l2,
      split nl content = l1 ++ imp :: l2 ∧
      is_import_line imp = true ∧ no_import_line l2 = true ∧
      add_import filepath content = join newline (l1 ++ imp :: snippet :: l2))) ∧
  String.length (add_import filepath content) =
    String.length snippet + 1 + String.length content.
Proof.
  intros snippet. split.
  - destruct (last_import_cases (split nl content))
      as [H | (l1 & imp & l2 & Hs & Hi & Hl)].
    + left. split; [done |]. by apply add_import_top.
    + right. exists l1, imp, l2. repeat split; try done. by apply add_import_after.
  - unfold add_import. fold snippet nl.
    destruct (0 <=? last_import_from (split nl content) 0 (-1))%Z.
    + rewrite join_insert_length by apply split_not_nil.
      change newline with (String nl ""). rewrite join_split. lia.
    + rewrite !str_length_app. cbn [String.length newline]. lia.
Qed.

(** ** The whole run *)

Lemma writes_app (t1 t2 : list event) : writes (t1 ++ t2) = writes t1 + writes t2.
Proof.
  induction t1 as [|[line | path content] t1 IH]; cbn [app writes]; [done | done |].
  by rewrite IH.
Qed.

Lemma step_writes filepath base_dir w ok w' :
  migrate_file filepath base_dir w = Some (ok, w') →
  writes (trace w') = writes (trace w) + (if ok then 2 else 0) ∧
  (ok = false → files w' = files w).
Proof.
  intros H.
  destruct (migrate_file_cases filepath base_dir w)
    as [[_ E] | (c & _ & [[_ E] | [(_ & _ & E) | (_ & _ & E)]])];
    rewrite E in H; injection H as <- <-; cbn [say trace files];
    rewrite writes_app; cbn [writes]; split; done || lia.
Qed.

Lemma loop_writes l base_dir c w c' w' :
  main_loop l base_dir c w = Some (c', w') →
  writes (trace w') + 2 * migrated c = writes (trace w) + 2 * migrated c' ∧
  migrated c ≤ migrated c' ∧
  (migrated c' = migrated c → files w' = files w).
Proof.
  revert c w. induction l as [|p l IH]; intros c w H.
  - injection H as <- <-. repeat split; lia || done.
  - destruct (migrate_file_total p base_dir w) as (ok & w1 & E).
    rewrite (main_loop_cons _ _ _ _ _ _ _ E) in H.
    destruct (IH _ _ H) as (H1 & H2 & H3).
    destruct (step_writes _ _ _ _ _ E) as [H4 H5].
    destruct ok; cbn [count_one migrated] in *.
    + repeat split; try lia.
    + repeat split; try lia. intros Hm. rewrite H3 by done. by apply H5.
Qed.

Lemma main_trace base_dir w c w2 :
  main_loop FILES_TO_MIGRATE base_dir no_counters (banner w) = Some (c, w2) →
  ∃ w3, main base_dir w = Some (c, w3) ∧ files w3 = files w2 ∧
        writes (trace w3) = writes (trace w2).
Proof.
  intros H. unfold main, mbind, IO_bind. fold no_counters.
  unfold print at 1 2 3 4. cbn [files trace].
  unfold banner, say in H. cbn [files trace] in H.
  rewrite H. unfold print, mret, IO_ret. cbn [files trace].
  destruct (0 <? migrated c); cbn [files trace]; eexists;
    (split; [reflexivity |]); cbn [files trace]; (split; [done |]);
    rewrite !writes_app; cbn [writes]; lia.
Qed.

Lemma banner_writes (w : World) : writes (trace (banner w)) = writes (trace w).
Proof. unfold banner, say. cbn [trace]. rewrite !writes_app. cbn [writes]. lia. Qed.

(** X12.  A run of [main] writes two files for every entry it counts as
    migrated, the backup and the file, and nothing else; a run that migrates
    nothing leaves the file system as it was. *)
Theorem main_writes base_dir w :
  ∃ c w', main base_dir w = Some (c, w') ∧
    writes (trace w') = writes (trace w) + 2 * migrated c ∧
    (migrated c = 0 → files w' = files w).
Proof.
  destruct (main_loop_counters FILES_TO_MIGRATE base_dir no_counters (banner w))
    as (c & w2 & E & _ & _).
  destruct (main_trace _ _ _ _ E) as (w3 & Hm & Hf & Ht).
  destruct (loop_writes _ _ _ _ _ _ E) as (H1 & _ & H3).
  exists c, w3. split; [done |]. rewrite Hf, Ht, <- (banner_writes w).
  cbn [no_counters migrated] in *. split; [lia |].
  intros Hm0. by rewrite H3.
Qed.

Lemma path_join_inj base_dir p q : path_join base_dir p = path_join base_dir q → p = q.
Proof.
  unfold path_join. intros E.
  by apply (inj (String.app base_dir)), (inj (String.app "/")) in E.
Qed.

Lemma str_app_inj_r (a b x : string) : a +:+ x = b +:+ x → a = b.
Proof.
  intros E. apply (f_equal srev) in E. rewrite !srev_app in E.
  apply (inj (String.app (srev x))) in E. apply (f_equal srev) in E.
  by rewrite !srev_involutive in E.
Qed.

Lemma migratable_migrated (filepath content : string) :
  migratable (replace_console (add_import filepath content)) = false.
Proof. unfold migratable. by rewrite migrated_is_logged. Qed.

Lemma migrated_form_idempotent filepath old :
  migrated_form filepath (migrated_form filepath old) = migrated_form filepath old.
Proof.
  destruct old as [c|]; [| done]. cbn [migrated_form].
  destruct (migratable c) eqn:E; [by rewrite migratable_migrated | by rewrite E].
Qed.

Lemma backup_form_idempotent filepath old bak :
  backup_form (migrated_form filepath old) (backup_form old bak) = backup_form old bak.
Proof.
  destruct old as [c|]; [| done]. cbn [migrated_form backup_form].
  destruct (migratable c) eqn:E; [by rewrite migratable_migrated | by rewrite E].
Qed.

Lemma step_other_paths filepath base_dir w ok w' q :
  migrate_file filepath base_dir w = Some (ok, w') →
  q ≠ path_join base_dir filepath →
  q ≠ path_join base_dir filepath +:+ ".bak" →
  files w' !! q = files w !! q.
Proof.
  intros H H1 H2.
  destruct (migrate_file_cases filepath base_dir w)
    as [[_ E] | (c & _ & [[_ E] | [(_ & _ & E) | (_ & _ & E)]])];
    rewrite E in H; injection H as <- <-; try done.
  cbn [files]. by rewrite !lookup_insert_ne.
Qed.

Lemma step_own_paths filepath base_dir w ok w' :
  migrate_file filepath base_dir w = Some (ok, w') →
  files w' !! path_join base_dir filepath =
    migrated_form filepath (files w !! path_join base_dir filepath) ∧
  files w' !! (path_join base_dir filepath +:+ ".bak") =
    backup_form (files w !! path_join base_dir filepath)
      (files w !! (path_join base_dir filepath +:+ ".bak")).
Proof.
  intros H. unfold migrated_form, backup_form, migratable.
  destruct (migrate_file_cases filepath base_dir w)
    as [[Hc E] | (c & Hc & [[Ha E] | [(Ha & Hh & E) | (Ha & Hh & E)]])];
    rewrite E in H; injection H as <- <-; cbn [say files];
    rewrite Hc, ?Ha, ?Hh; cbn [negb andb]; try done.
  split; [apply lookup_insert_eq |].
  rewrite lookup_insert_ne by (apply not_eq_sym, app_neq_self; done).
  apply lookup_insert_eq.
Qed.

Section Effect.
Variables (base_dir : string) (manifest : list string).

Hypothesis no_backup_entry : ∀ p q,
  p ∈ manifest → q ∈ manifest →
  path_join base_dir p +:+ ".bak" ≠ path_join base_dir q.

Let file (p : string) : string := path_join base_dir p.
Let bak (p : string) : string := path_join base_dir p +:+ ".bak".

Lemma loop_effect l c w c' w' :
  l ⊆ manifest →
  main_loop l base_dir c w = Some (c', w') →
  ∀ q, q ∈ manifest →
    files w' !! file q =
      (if decide (q ∈ l) then migrated_form q (files w !! file q)
       else files w !! file q) ∧
    files w' !! bak q =
      (if decide (q ∈ l) then backup_form (files w !! file q) (files w !! bak q)
       else files w !! bak q).
Proof.
  unfold file, bak. revert c w. induction l as [|p l IH]; intros c w Hl H q Hq.
  - injection H as <- <-. by rewrite decide_False by apply not_elem_of_nil.
  - destruct (migrate_file_total p base_dir w) as (ok & w1 & E).
    rewrite (main_loop_cons _ _ _ _ _ _ _ E) in H.
    assert (p ∈ manifest) as Hp by (apply Hl; left).
    assert (l ⊆ manifest) as Hl' by (intros x Hx; apply Hl; by right).
    destruct (IH _ _ Hl' H q Hq) as [-> ->].
    destruct (decide (q = p)) as [-> | Hne].
    + destruct (step_own_paths _ _ _ _ _ E) as [H1 H2].
      rewrite H1, H2.
      destruct (decide (p ∈ p :: l)) as [_ | Hn]; [| by destruct Hn; left].
      destruct (decide (p ∈ l)); [| done].
      by rewrite migrated_form_idempotent, backup_form_idempotent.
    + assert (files w1 !! path_join base_dir q =
              files w !! path_join base_dir q) as ->.
      { apply (step_other_paths _ _ _ _ _ _ E).
        - intros Eq. by apply path_join_inj in Eq.
        - apply not_eq_sym. by apply no_backup_entry. }
      assert (files w1 !! (path_join base_dir q +:+ ".bak") =
              files w !! (path_join base_dir q +:+ ".bak")) as ->.
      { apply (step_other_paths _ _ _ _ _ _ E).
        - by apply no_backup_entry.
        - intros Eq. by apply str_app_inj_r, path_join_inj in Eq. }
      destruct (decide (q ∈ l)) as [Hin | Hnin].
      * destruct (decide (q ∈ p :: l)) as [_ | Hn]; [done | by destruct Hn; right].
      * destruct (decide (q ∈ p :: l)) as [[? | ?]%elem_of_cons | _]; done.
Qed.

Lemma loop_frame l c w c' w' q :
  main_loop l base_dir c w = Some (c', w') →
  (∀ p, p ∈ l → q ≠ file p ∧ q ≠ bak p) →
  files w' !! q = files w !! q.
Proof.
  unfold file, bak. revert c w. induction l as [|p l IH]; intros c w H Hq.
  - by injection H as <- <-.
  - destruct (migrate_file_total p base_dir w) as (ok & w1 & E).
    rewrite (main_loop_cons _ _ _ _ _ _ _ E) in H.
    rewrite (IH _ _ H) by (intros x Hx; apply Hq; by right).
    destruct (Hq p (list_elem_of_here p l)) as [H1 H2].
    by apply (step_other_paths _ _ _ _ _ _ E).
Qed.
End Effect.

(** X13.  What a run of [main] makes of the file of a manifest entry: a file
    that does not refer to the logger module and matches the applicability
    test becomes the text read from it (its content with every CR LF and
    every other CR turned into LF) with the snippet injected and the call
    sites substituted; any other file stays as it is, and a missing file
    stays missing. *)
Theorem main_rewrites_files base_dir w :
  ∃ c w', main base_dir w = Some (c, w') ∧
    ∀ p, p ∈ FILES_TO_MIGRATE →
      files w' !! path_join base_dir p =
        migrated_form p (files w !! path_join base_dir p).
Proof.
  destruct (main_loop_counters FILES_TO_MIGRATE base_dir no_counters (banner w))
    as (c & w2 & E & _ & _).
  destruct (main_unfold _ _ _ _ E) as (w3 & Hm & Hf).
  exists c, w3. split; [done |]. intros p Hp. rewrite Hf.
  destruct (loop_effect base_dir FILES_TO_MIGRATE
              (manifest_no_backup_entry base_dir) _ _ _ _ _ (reflexivity _) E p Hp)
    as [H _].
  rewrite H. by destruct (decide (p ∈ FILES_TO_MIGRATE)).
Qed.

(** X14.  What a run of [main] makes of the backup of a manifest entry: when
    the file is migrated the backup holds, at the end of the run, the text
    read from the file at its start (the content the file had, with every
    CR LF and every other CR turned into LF); otherwise the backup path keeps
    what it had. *)
Theorem main_backs_up base_dir w :
  ∃ c w', main base_dir w = Some (c, w') ∧
    ∀ p, p ∈ FILES_TO_MIGRATE →
      files w' !! (path_join base_dir p +:+ ".bak") =
        backup_form (files w !! path_join base_dir p)
          (files w !! (path_join base_dir p +:+ ".bak")).
Proof.
  destruct (main_loop_counters FILES_TO_MIGRATE base_dir no_counters (banner w))
    as (c & w2 & E & _ & _).
  destruct (main_unfold _ _ _ _ E) as (w3 & Hm & Hf).
  exists c, w3. split; [done |]. intros p Hp. rewrite Hf.
  destruct (loop_effect base_dir FILES_TO_MIGRATE
              (manifest_no_backup_entry base_dir) _ _ _ _ _ (reflexivity _) E p Hp)
    as [_ H].
  rewrite H. by destruct (decide (p ∈ FILES_TO_MIGRATE)).
Qed.

(** X15.  A run of [main] touches nothing but the files of the manifest
    entries and their backups: every other path keeps what it had. *)
Theorem main_frame base_dir w :
  ∃ c w', main base_dir w = Some (c, w') ∧
    ∀ q, (∀ p, p ∈ FILES_TO_MIGRATE →
               q ≠ path_join base_dir p ∧ q ≠ path_join base_dir p +:+ ".bak") →
         files w' !! q = files w !! q.
Proof.
  destruct (main_loop_counters FILES_TO_MIGRATE base_dir no_counters (banner w))
    as (c & w2 & E & _ & _).
  destruct (main_unfold _ _ _ _ E) as (w3 & Hm & Hf).
  exists c, w3. split; [done |]. intros q Hq. rewrite Hf.
  by rewrite (loop_frame base_dir _ _ _ _ _ q E).
Qed.
